(** * Onebox backend: mailbox synchronisation, classification and reply
      suggestion

    A shallow embedding of [main.py] (and of the record shape declared in
    [schemas.py]) together with the properties of the design document that
    can be stated over it.

    Conventions of the embedding.
    - A Python [str] is a [string]: a sequence of code points below 256
      (Latin-1).  [str.lower], [str.split] and [str.strip] are written out
      for that range.
    - A Python [bytes] is a [list byte].
    - [None] is [None]; a value that may be [None] has an [option] type.
    - Exceptions are values: a computation returns [Ok v] or [Raise e],
      and the effects it had before raising stay in the state.
    - The standard library, [bson] and the protocol client are not part
      of the repository: what the code calls from them is a field of
      [Library] (pure helpers) or of [Imap] (the client, an arbitrary
      deterministic state machine). *)

From Stdlib Require Import ZArith NArith String Ascii Bool Lia.
From Stdlib Require Import Strings.Byte.
From stdpp Require Import base option list strings gmap sorting.

Local Open Scope Z_scope.

(* ===================================================================== *)
(** * Python strings                                                      *)
(* ===================================================================== *)

Module PyStr.

(** The line feed of the f-string in [categorize_email] and of the
    reply template. *)
Definition nl : string := String "010"%char "".

(** [c.lower()] for one code point below 256: the ASCII capitals and the
    Latin-1 capitals (all of 0xC0..0xDE but the multiplication sign). *)
Definition lower_char (c : ascii) : ascii :=
  let n := N_of_ascii c in
  if ((65 <=? n) && (n <=? 90) || (192 <=? n) && (n <=? 214)
      || (216 <=? n) && (n <=? 222))%N
  then ascii_of_N (n + 32) else c.

(** [s.lower()] *)
Fixpoint lower (s : string) : string :=
  match s with
  | "" => ""
  | String c s' => String (lower_char c) (lower s')
  end.

(** [k in s] for two strings: [k] occurs in [s] as a substring. *)
Fixpoint str_in (k s : string) : bool :=
  String.prefix k s ||
  match s with
  | "" => false
  | String _ s' => str_in k s'
  end.

(** [any(k in text for k in ks)] *)
Definition any_in (ks : list string) (text : string) : bool :=
  existsb (fun k => str_in k text) ks.

(** [x or ''] for an optional string. *)
Definition or_empty (o : option string) : string :=
  match o with
  | Some s => s
  | None => ""
  end.

(** Truth value of an optional string: [None] and [''] are false. *)
Definition truthy (o : option string) : bool :=
  match o with
  | Some (String _ _) => true
  | _ => false
  end.

(** [a or b] on optional strings (the result is [a] when it is truthy,
    else [b], whatever [b] is). *)
Definition or_else (a b : option string) : option string :=
  if truthy a then a else b.

(** [str.isspace] for one code point below 256. *)
Definition is_space (c : ascii) : bool :=
  let n := N_of_ascii c in
  ((9 <=? n) && (n <=? 13) || (28 <=? n) && (n <=? 32)
   || (n =? 133) || (n =? 160))%N.

(** [s[n:]] *)
Fixpoint str_drop (n : nat) (s : string) : string :=
  match n, s with
  | O, _ => s
  | S n', String _ s' => str_drop n' s'
  | S _, "" => ""
  end.

(** [s[:n]] *)
Fixpoint str_take (n : nat) (s : string) : string :=
  match n, s with
  | S n', String c s' => String c (str_take n' s')
  | _, _ => ""
  end.

End PyStr.

Import PyStr.

(* ===================================================================== *)
(** * The classifier ([categorize_email], main.py 135-148)                *)
(* ===================================================================== *)

Module Classifier.

Definition out_of_office_terms : list string :=
  ["out of office"; "ooo"; "vacation auto-reply"; "automatic reply"].
Definition not_interested_terms : list string :=
  ["not interested"; "no longer interested"; "unsubscribe"].
Definition meeting_intent_terms : list string :=
  ["meeting"; "calendar"; "schedule"; "book a time"; "let's meet"].
Definition meeting_artifact_terms : list string :=
  ["book"; "link"; "schedule"; "slot"; "cal.com"; "calendly"].
Definition interested_terms : list string :=
  ["buy"; "interested"; "sounds good"; "let's talk"; "let us talk"].
Definition spam_terms : list string :=
  ["viagra"; "lottery"; "claim prize"; "crypto giveaway"; "spam"].

(** [f"{subject or ''} \n {body or ''}".lower()] *)
Definition email_text (subject body : option string) : string :=
  lower (or_empty subject +:+ " " +:+ nl +:+ " " +:+ or_empty body).

Definition categorize_email (subject body : option string) : option string :=
  let text := email_text subject body in
  let lower_rules :=
    if any_in interested_terms text then Some "Interested"
    else if any_in spam_terms text then Some "Spam"
    else None in
  if any_in out_of_office_terms text then Some "Out of Office"
  else if any_in not_interested_terms text then Some "Not Interested"
  else if any_in meeting_intent_terms text then
    if any_in meeting_artifact_terms text then Some "Meeting Booked"
    else lower_rules
  else lower_rules.

End Classifier.

Import Classifier.

(* ===================================================================== *)
(** * Values shared by the pipeline                                       *)
(* ===================================================================== *)

(** A Python [bytes] value. *)
Definition bytes : Type := list byte.

(** A [datetime], as a point on the time line. *)
Definition datetime : Type := Z.

(** An exception raised by the runtime or by a library: its class and
    [str(e)]. *)
Record pyerr : Type := PyErr { err_class : string; err_str : string }.

(** What an endpoint function can raise: an [HTTPException] of its own, or
    an exception that nothing catches. *)
Inductive exn : Type :=
| HTTPException (status_code : Z) (detail : string)
| Uncaught (e : pyerr).

Inductive outcome (E A : Type) : Type :=
| Ok (a : A)
| Raise (e : E).
Arguments Ok {E A} a.
Arguments Raise {E A} e.

(** Subscripting [None]: what [db["emailmessage"]] raises when no database
    is configured. *)
Definition none_not_subscriptable : pyerr :=
  PyErr "TypeError" "'NoneType' object is not subscriptable".

(** The argument of [safe_decode]: the code calls it on [bytes] (payloads,
    sequence numbers) and on [str] (header values). *)
Inductive pyval : Type :=
| VBytes (b : bytes)
| VStr (s : string).

(** [l[-n:]] for [n > 0] *)
Definition last_n {A} (n : nat) (l : list A) : list A :=
  drop (length l - n) l.

(** [split()] with no argument: maximal runs of non-blank items. *)
Fixpoint split_go {A} (blank : A → bool) (cur : list A) (l : list A)
  : list (list A) :=
  let flush := match cur with [] => [] | _ => [rev cur] end in
  match l with
  | [] => flush
  | x :: l' =>
      if blank x then flush ++ split_go blank [] l'
      else split_go blank (x :: cur) l'
  end.

Definition split_by {A} (blank : A → bool) (l : list A) : list (list A) :=
  split_go blank [] l.

(** [bytes.split()]: the blanks of [bytes] are the six ASCII ones. *)
Definition byte_is_space (b : byte) : bool :=
  let n := Byte.to_N b in ((9 <=? n) && (n <=? 13) || (n =? 32))%N.

Definition bytes_split (b : bytes) : list bytes := split_by byte_is_space b.

(** [str.split()] *)
Definition str_split (s : string) : list string :=
  string_of_list_ascii <$> split_by PyStr.is_space (list_ascii_of_string s).

(** [str.strip()] *)
Fixpoint lstrip (s : string) : string :=
  match s with
  | "" => ""
  | String c s' => if PyStr.is_space c then lstrip s' else s
  end.

Definition strip (s : string) : string :=
  String.rev (lstrip (String.rev (lstrip s))).

(* ===================================================================== *)
(** * Parsed messages ([email.message.Message])                           *)
(* ===================================================================== *)

(** A parsed message: its header list in order, what [get_content_type()]
    returns for it, and either the transfer-decoded payload of a leaf
    ([get_payload(decode=True)]) or the sub-parts of a multipart. *)
#[warnings="-register-all"]
Inductive message : Type :=
| Leaf (headers : list (string * string)) (ctype : string)
       (decoded : option bytes)
| Multi (headers : list (string * string)) (ctype : string)
        (parts : list message).

Module Msg.

Definition headers (m : message) : list (string * string) :=
  match m with Leaf h _ _ | Multi h _ _ => h end.

(** [msg.items()] *)
Definition items (m : message) : list (string * string) := headers m.

Definition get_content_type (m : message) : string :=
  match m with Leaf _ c _ | Multi _ c _ => c end.

Definition is_multipart (m : message) : bool :=
  match m with Leaf _ _ _ => false | Multi _ _ _ => true end.

(** [get_payload(decode=True)]: [None] for a multipart. *)
Definition get_payload_decoded (m : message) : option bytes :=
  match m with Leaf _ _ d => d | Multi _ _ _ => None end.

(** [msg.get_all(name, [])]: header names compare without case. *)
Definition get_all (m : message) (name : string) : list string :=
  snd <$> filter (λ kv, lower (fst kv) = lower name) (headers m).

(** [msg.get(name)]: the first such header, or [None]. *)
Definition get (m : message) (name : string) : option string :=
  head (get_all m name).

(** [msg.walk()]: the message itself, then its parts depth first. *)
Fixpoint walk (m : message) : list message :=
  m :: match m with
       | Leaf _ _ _ => []
       | Multi _ _ parts => flat_map walk parts
       end.

End Msg.

(** What the code calls from the standard library, besides the protocol
    client, and from [bson]. *)
Record Library : Type := {
  (** [b.decode(errors="ignore")] *)
  bytes_decode_ignore : bytes → string;
  (** [str(make_header(decode_header(s)))] *)
  make_header_str : string → outcome pyerr string;
  (** [email.utils.parsedate_to_datetime(s)] *)
  parsedate_to_datetime : string → outcome pyerr datetime;
  (** [email.message_from_bytes(raw)] *)
  message_from_bytes : bytes → message;
  (** [ObjectId(s)] for a [str]: the identifier the text names, or the
      error raised for a text that names none ([InvalidId]) *)
  ObjectId : string → outcome pyerr nat;
}.

(* ===================================================================== *)
(** * The decoder helpers (main.py 36-49, 151-173)                        *)
(* ===================================================================== *)

Section Decoder.
Context (lib : Library).

(** Neither branch of the [try] can raise on these two kinds of value. *)
Definition safe_decode (value : pyval) : string :=
  match value with
  | VBytes b => bytes_decode_ignore lib b
  | VStr s => s
  end.

Definition decode_mime_words (s : option string) : option string :=
  match s with
  | Some (String _ _ as s') =>
      match make_header_str lib s' with
      | Ok r => Some r
      | Raise _ => s
      end
  | _ => None
  end.

(** [str(part.get("Content-Disposition"))] *)
Definition disposition (part : message) : string :=
  match Msg.get part "Content-Disposition" with
  | Some v => v
  | None => "None"
  end.

(** One turn of the loop over [msg.walk()]. *)
Definition extract_part (acc : option string * option string)
    (part : message) : option string * option string :=
  let '(body_text, body_html) := acc in
  let ctype := Msg.get_content_type part in
  let disp := disposition part in
  if bool_decide (ctype = "text/plain") && negb (str_in "attachment" disp)
  then
    match Msg.get_payload_decoded part with
    | Some ((_ :: _) as payload) => (Some (safe_decode (VBytes payload)), body_html)
    | _ => acc
    end
  else if bool_decide (ctype = "text/html") && negb (str_in "attachment" disp)
  then
    match Msg.get_payload_decoded part with
    | Some ((_ :: _) as payload) => (body_text, Some (safe_decode (VBytes payload)))
    | _ => acc
    end
  else acc.

Definition extract_body (msg : message) : option string * option string :=
  if Msg.is_multipart msg then
    fold_left extract_part (Msg.walk msg) (None, None)
  else
    match Msg.get_payload_decoded msg with
    | Some ((_ :: _) as payload) =>
        if bool_decide (Msg.get_content_type msg = "text/html")
        then (None, Some (safe_decode (VBytes payload)))
        else (Some (safe_decode (VBytes payload)), None)
    | _ => (None, None)
    end.

(** Lines 226-230: the [Date] header, or [None] when it is missing,
    empty, or refused by the parser. *)
Definition parse_date (msg : message) : option datetime :=
  match Msg.get msg "Date" with
  | Some (String _ _ as date_hdr) =>
      match parsedate_to_datetime lib date_hdr with
      | Ok d => Some d
      | Raise _ => None
      end
  | _ => None
  end.

End Decoder.

(* ===================================================================== *)
(** * Stored documents                                                    *)
(* ===================================================================== *)

(** A document of the [emailmessage] collection, with the keys that
    [sync_account] writes (those of [EmailMessage] in schemas.py, and the
    two bookkeeping timestamps) and the identifier the store gives it. *)
Module Doc.
Record t : Type := mk {
  _id : nat;
  account_id : string;
  message_id : string;
  uid : option Z;
  folder : string;
  subject : option string;
  sender : option string;
  to : list string;
  cc : list string;
  date : datetime;
  snippet : string;
  body_text : option string;
  body_html : option string;
  labels : list string;
  ai_category : option string;
  raw_headers : gmap string string;
  created_at : datetime;
  updated_at : datetime;
}.

Definition set_id (i : nat) (d : t) : t :=
  mk i (account_id d) (message_id d) (uid d) (folder d) (subject d)
     (sender d) (to d) (cc d) (date d) (snippet d) (body_text d)
     (body_html d) (labels d) (ai_category d) (raw_headers d)
     (created_at d) (updated_at d).

(** [{"$set": {"ai_category": c}}] *)
Definition set_ai_category (c : option string) (d : t) : t :=
  mk (_id d) (account_id d) (message_id d) (uid d) (folder d) (subject d)
     (sender d) (to d) (cc d) (date d) (snippet d) (body_text d)
     (body_html d) (labels d) c (raw_headers d)
     (created_at d) (updated_at d).
End Doc.

(** A document of the [agendadoc] collection ([AgendaDoc]). *)
Record agenda_doc : Type := AgendaDoc {
  ag_title : string;
  ag_content : string;
  ag_tags : option (list string);
}.

(** An account document, with the keys [sync_account] reads. *)
Record account : Type := Account {
  acc_id : string;          (* str(account['_id']) *)
  acc_host : string;
  acc_port : Z;
  acc_username : string;
  acc_password : string;
  acc_use_ssl : bool;
}.

(** Modelled from the spec: the store behind [db] (the module [database]
    is not among the sources).  Section 6 gives it
    [findByAccountAndMessageId], [insert] and [updateCategory] on messages
    and [listAll] on reference documents; a collection is the list of its
    documents in insertion order, and nothing is ever deleted. *)
Record database : Type := Database {
  emailmessage : list Doc.t;
  agendadoc : list agenda_doc;
}.

Module Store.

(** [find_one({"message_id": mid, "account_id": aid})] *)
Definition find_one_by_key (mid aid : string) (coll : list Doc.t)
  : option Doc.t :=
  List.find
    (λ d, bool_decide (Doc.message_id d = mid ∧ Doc.account_id d = aid))
    coll.

(** [find_one({"_id": i})] *)
Definition find_one_by_id (i : nat) (coll : list Doc.t) : option Doc.t :=
  List.find (λ d, bool_decide (Doc._id d = i)) coll.

(** [insert_one(doc)]: the store gives the document a fresh identifier. *)
Definition insert_one (doc : Doc.t) (coll : list Doc.t) : list Doc.t :=
  coll ++ [Doc.set_id (length coll) doc].

(** [update_one({"_id": i}, {"$set": {"ai_category": c}})]: the first
    document with that identifier. *)
Fixpoint update_category (i : nat) (c : option string) (coll : list Doc.t)
  : list Doc.t :=
  match coll with
  | [] => []
  | d :: coll' =>
      if bool_decide (Doc._id d = i) then Doc.set_ai_category c d :: coll'
      else d :: update_category i c coll'
  end.

End Store.

(* ===================================================================== *)
(** * The protocol client and the clock                                   *)
(* ===================================================================== *)

(** One item of the list a fetch returns: a pair of [bytes], a lone
    [bytes], or [None]. *)
Inductive fetch_part : Type :=
| FTuple (envelope : bytes) (content : bytes)
| FBytes (b : bytes)
| FNone.

(** The mail server together with the client object talking to it
    ([imaplib.IMAP4] / [IMAP4_SSL]): a deterministic machine over a state
    [St].  Each call may change the state and either returns or raises. *)
Record Imap (St : Type) : Type := {
  (** [imaplib.IMAP4_SSL(host, port)] when the flag is set, else
      [imaplib.IMAP4(host, port)] *)
  imap_open : St → bool → string → Z → St * outcome pyerr unit;
  (** [M.login(username, password)] *)
  imap_login : St → string → string → St * outcome pyerr unit;
  (** [M.select(folder, readonly=True)]: the status it returns *)
  imap_select : St → string → St * outcome pyerr string;
  (** [M.search(None, criterion)]: status and data *)
  imap_search : St → string → St * outcome pyerr (string * list (option bytes));
  (** [M.fetch(num, what)]: status and data *)
  imap_fetch : St → bytes → string → St * outcome pyerr (string * list fetch_part);
  (** [M.logout()] *)
  imap_logout : St → St * outcome pyerr unit;
}.
Arguments imap_open {St}.
Arguments imap_login {St}.
Arguments imap_select {St}.
Arguments imap_search {St}.
Arguments imap_fetch {St}.
Arguments imap_logout {St}.

(** The calls made on the client, in order. *)
Inductive imap_call : Type :=
| COpen
| CLogin
| CSelect (folder : string)
| CSearch (criterion : string)
| CFetch (num : bytes)
| CLogout.

(** The clocks of the host. *)
Record Clock : Type := {
  (** [(datetime.now() - timedelta(days=days)).strftime('%d-%b-%Y')] *)
  since_date_of : Z → outcome pyerr string;
  (** the successive values of [datetime.now(timezone.utc)] *)
  utc_now : nat → datetime;
}.

(** Everything a run can read or change. *)
Record world (St : Type) : Type := World {
  w_imap : St;                    (* server and client *)
  w_db : option database;         (* [db]; [None] when no database is configured *)
  w_tick : nat;                   (* how many times the UTC clock was read *)
  w_trace : list imap_call;       (* client calls so far *)
}.
Arguments World {St}.
Arguments w_imap {St}.
Arguments w_db {St}.
Arguments w_tick {St}.
Arguments w_trace {St}.

(** Computations: state passing with exceptions. *)
Definition M (St A : Type) : Type := world St → outcome pyerr A * world St.

Definition ret {St A} (a : A) : M St A := λ w, (Ok a, w).

Definition raise {St A} (e : pyerr) : M St A := λ w, (Raise e, w).

Definition bind {St A B} (m : M St A) (k : A → M St B) : M St B :=
  λ w, match m w with
       | (Ok a, w') => k a w'
       | (Raise e, w') => (Raise e, w')
       end.

(** [try: m / except Exception: ...], as the outcome of [m]. *)
Definition try_ {St A} (m : M St A) : M St (outcome pyerr A) :=
  λ w, let '(r, w') := m w in (Ok r, w').

Notation "'do' x <- m ; k" := (bind m (λ x, k))
  (at level 10, x pattern, m at level 100, k at level 200,
   format "'[v' 'do'  x  <-  m ; '/' k ']'").

(* ===================================================================== *)
(** * The synchronisation run (main.py 176-270)                           *)
(* ===================================================================== *)

Section Sync.
Context {St : Type} (lib : Library) (clk : Clock) (srv : Imap St).

(** ** Primitive steps *)

Definition call (c : imap_call) {A}
    (step : St → St * outcome pyerr A) : M St A :=
  λ w, let '(s', r) := step (w_imap w) in
       (r, World s' (w_db w) (w_tick w) (w_trace w ++ [c])).

Definition M_open (use_ssl : bool) (host : string) (port : Z) : M St unit :=
  call COpen (λ s, imap_open srv s use_ssl host port).
Definition M_login (username password : string) : M St unit :=
  call CLogin (λ s, imap_login srv s username password).
Definition M_select (folder : string) : M St string :=
  call (CSelect folder) (λ s, imap_select srv s folder).
Definition M_search (criterion : string)
  : M St (string * list (option bytes)) :=
  call (CSearch criterion) (λ s, imap_search srv s criterion).
Definition M_fetch (num : bytes) (what : string)
  : M St (string * list fetch_part) :=
  call (CFetch num) (λ s, imap_fetch srv s num what).
Definition M_logout : M St unit :=
  call CLogout (λ s, imap_logout srv s).

(** [datetime.now(timezone.utc)] *)
Definition now_utc : M St datetime :=
  λ w, (Ok (utc_now clk (w_tick w)),
        World (w_imap w) (w_db w) (S (w_tick w)) (w_trace w)).

Definition since_date (days : Z) : M St string :=
  λ w, (since_date_of clk days, w).

(** [db["emailmessage"]]: subscripting [None] is a [TypeError]. *)
Definition db_emailmessage : M St (list Doc.t) :=
  λ w, match w_db w with
       | Some d => (Ok (emailmessage d), w)
       | None => (Raise none_not_subscriptable, w)
       end.

Definition db_find_one (mid aid : string) : M St (option Doc.t) :=
  do coll <- db_emailmessage;
  ret (Store.find_one_by_key mid aid coll).

Definition db_insert_one (doc : Doc.t) : M St unit :=
  do _ <- db_emailmessage;
  λ w, (Ok tt,
        World (w_imap w)
              ((λ d, Database (Store.insert_one doc (emailmessage d))
                              (agendadoc d)) <$> w_db w)
              (w_tick w) (w_trace w)).

(** ** [connect_imap] *)
Definition connect_imap (host : string) (port : Z)
    (username password : string) (use_ssl : bool) : M St unit :=
  do _ <- M_open use_ssl host port;
  do _ <- M_login username password;
  ret tt.

(** ** The body of the loop over messages *)

(** [msg.get('Message-ID') or f"uid-{safe_decode(num)}-{folder}-{username}"] *)
Definition message_key (msg : message) (num : bytes)
    (folder username : string) : string :=
  match Msg.get msg "Message-ID" with
  | Some (String _ _ as mid) => mid
  | _ =>
      "uid-" +:+ safe_decode lib (VBytes num) +:+ "-" +:+ folder
             +:+ "-" +:+ username
  end.

(** [{k: safe_decode(v) for k, v in msg.items()}]: a later header
    with the same name replaces an earlier one. *)
Definition raw_headers_of (msg : message) : gmap string string :=
  fold_left (λ m kv, <[fst kv := safe_decode lib (VStr (snd kv))]> m)
            (Msg.items msg) ∅.

(** Lines 221-259: what is done with the raw bytes of one message. *)
Definition ingest (acct : account) (folder : string) (num raw : bytes)
    (inserted : Z) : M St Z :=
  let msg := message_from_bytes lib raw in
  let subject := decode_mime_words lib (Msg.get msg "Subject") in
  let from_ := decode_mime_words lib (Msg.get msg "From") in
  let to := Msg.get_all msg "To" in
  let cc := Msg.get_all msg "Cc" in
  let date_parsed := parse_date lib msg in
  let '(body_text, body_html) := extract_body lib msg in
  let snippet := str_take 280 (or_empty (or_else body_text body_html)) in
  let mid := message_key msg num folder (acc_username acct) in
  do existing <- db_find_one mid (acc_id acct);
  match existing with
  | Some _ => ret inserted
  | None =>
      let ai_cat := categorize_email subject (or_else body_text body_html) in
      do date <- match date_parsed with
                 | Some d => ret d
                 | None => now_utc
                 end;
      do created <- now_utc;
      do updated <- now_utc;
      let doc :=
        Doc.mk 0 (acc_id acct) mid None folder subject from_ to cc date
               snippet body_text body_html [] ai_cat (raw_headers_of msg)
               created updated in
      do _ <- db_insert_one doc;
      ret (inserted + 1)
  end.

(** Lines 214-218: the content of the first pair in the fetched data. *)
Fixpoint first_tuple (msg_data : list fetch_part) : option bytes :=
  match msg_data with
  | [] => None
  | FTuple _ content :: _ => Some content
  | _ :: rest => first_tuple rest
  end.

(** Lines 211-259: one turn of the loop over sequence numbers; a
    [continue] returns the count unchanged. *)
Definition sync_message (acct : account) (folder : string) (num : bytes)
    (inserted : Z) : M St Z :=
  do fetched <- M_fetch num "(RFC822 UID)";
  let '(typ, msg_data) := fetched in
  if negb (bool_decide (typ = "OK")) || bool_decide (msg_data = [])
  then ret inserted
  else
    match first_tuple msg_data with
    | Some ((_ :: _) as raw) => ingest acct folder num raw inserted
    | _ => ret inserted
    end.

Fixpoint sync_messages (acct : account) (folder : string)
    (nums : list bytes) (inserted : Z) : M St Z :=
  match nums with
  | [] => ret inserted
  | num :: rest =>
      do inserted' <- sync_message acct folder num inserted;
      sync_messages acct folder rest inserted'
  end.

(** [data[0].split() if data and data[0] else []] *)
Definition id_list_of (data : list (option bytes)) : list bytes :=
  match data with
  | Some ((_ :: _) as d0) :: _ => bytes_split d0
  | _ => []
  end.

(** Lines 202-259: one turn of the loop over folders. *)
Definition sync_folder (acct : account) (since : string) (folder : string)
    (inserted : Z) : M St Z :=
  do selected <- try_ (M_select folder);
  match selected with
  | Raise _ => ret inserted
  | Ok _ =>
      do found <- M_search ("(SINCE " +:+ since +:+ ")");
      let '(typ, data) := found in
      if negb (bool_decide (typ = "OK")) then ret inserted
      else
        sync_messages acct folder (last_n 1000 (id_list_of data)) inserted
  end.

Fixpoint sync_folders (acct : account) (since : string)
    (folders : list string) (inserted : Z) : M St Z :=
  match folders with
  | [] => ret inserted
  | folder :: rest =>
      do inserted' <- sync_folder acct since folder inserted;
      sync_folders acct since rest inserted'
  end.

(** [folders or ["INBOX"]] *)
Definition target_folders (folders : option (list string)) : list string :=
  match folders with
  | Some ((_ :: _) as fs) => fs
  | _ => ["INBOX"]
  end.

(** Lines 198-259: the loops under the outer [try]. *)
Definition sync_loops (acct : account) (folders : option (list string))
    (days : Z) : M St Z :=
  do since <- since_date days;
  sync_folders acct since (target_folders folders) 0.

(** Lines 198-264: the outer [try] block; the value is the number under
    the key ["inserted"] of the returned dictionary. *)
Definition sync_try (acct : account) (folders : option (list string))
    (days : Z) : M St Z :=
  do inserted <- sync_loops acct folders days;
  do _ <- try_ M_logout;
  ret inserted.

Definition sync_account (acct : account) (folders : option (list string))
    (days : Z) (w : world St) : outcome exn Z * world St :=
  match connect_imap (acc_host acct) (acc_port acct) (acc_username acct)
                     (acc_password acct) (acc_use_ssl acct) w with
  | (Raise e, w1) =>
      (Raise (HTTPException 400 ("IMAP login failed: " +:+ err_str e)), w1)
  | (Ok _, w1) =>
      match sync_try acct folders days w1 with
      | (Ok inserted, w2) => (Ok inserted, w2)
      | (Raise e, w2) =>
          let '(_, w3) := try_ M_logout w2 in
          (Raise (HTTPException 500 (err_str e)), w3)
      end
  end.

(** ** [mark_interested] (main.py 334-359), as far as the store goes; the
    two notifications are fire-and-forget and leave the store alone.
    [db["emailmessage"]] is evaluated before the argument of [find_one],
    so a missing database is met before [ObjectId(email_id)] can raise;
    neither exception is caught. *)
Definition mark_interested (email_id : string) (w : world St)
  : outcome exn unit * world St :=
  match db_emailmessage w with
  | (Raise e, w1) => (Raise (Uncaught e), w1)
  | (Ok coll, w1) =>
      match ObjectId lib email_id with
      | Raise e => (Raise (Uncaught e), w1)
      | Ok oid =>
          match Store.find_one_by_id oid coll with
          | None => (Raise (HTTPException 404 "Email not found"), w1)
          | Some doc =>
              (Ok tt,
               World (w_imap w1)
                     ((λ d, Database
                              (Store.update_category (Doc._id doc)
                                 (Some "Interested") (emailmessage d))
                              (agendadoc d)) <$> w_db w1)
                     (w_tick w1) (w_trace w1))
          end
      end
  end.

End Sync.

(** A sequence of runs, one after the other on the same store.  Each run
    has its own clock and its own mailbox: the machine it talks to and
    the state that machine is in when the run starts. *)
Record run_spec (St : Type) : Type := RunSpec {
  run_clk : Clock;
  run_srv : Imap St;
  run_mailbox : St;
  run_acct : account;
  run_folders : option (list string);
  run_days : Z;
}.
Arguments RunSpec {St}.
Arguments run_clk {St}.
Arguments run_srv {St}.
Arguments run_mailbox {St}.
Arguments run_acct {St}.
Arguments run_folders {St}.
Arguments run_days {St}.

(** The world a run starts in when the mailbox is in state [s]. *)
Definition at_mailbox {St} (s : St) (w : world St) : world St :=
  World s (w_db w) (w_tick w) (w_trace w).

Fixpoint sync_runs {St} (lib : Library) (runs : list (run_spec St))
    (w : world St) : world St :=
  match runs with
  | [] => w
  | r :: rest =>
      sync_runs lib rest
        (snd (sync_account lib (run_clk r) (run_srv r) (run_acct r)
                (run_folders r) (run_days r) (at_mailbox (run_mailbox r) w)))
  end.

(** The stored messages of a world (none without a database). *)
Definition messages_of {St} (w : world St) : list Doc.t :=
  match w_db w with
  | Some d => emailmessage d
  | None => []
  end.

(** The deduplication key of a stored message. *)
Definition doc_key (d : Doc.t) : string * string :=
  (Doc.account_id d, Doc.message_id d).

(* ===================================================================== *)
(** * Reply suggestion (main.py 377-410)                                  *)
(* ===================================================================== *)

Module Suggest.

Definition simple_score (query doc : string) : Z :=
  let q : gset string := list_to_set (str_split (lower query)) in
  let d : gset string := list_to_set (str_split (lower doc)) in
  Z.of_nat (size (q ∩ d)).

(** [f"{d.get('title','')} {d.get('content','')}"] *)
Definition doc_text (d : agenda_doc) : string :=
  ag_title d +:+ " " +:+ ag_content d.

(** One turn of the loop over the documents: [best] and [best_score]. *)
Definition best_step (query : string) (acc : option agenda_doc * Z)
    (d : agenda_doc) : option agenda_doc * Z :=
  let '(best, best_score) := acc in
  let score := simple_score query (doc_text d) in
  if best_score <? score then (Some d, score) else acc.

Definition best_of (query : string) (docs : list agenda_doc)
  : option agenda_doc * Z :=
  fold_left (best_step query) docs (None, -1).

(** [f"{subj} {body}"] for the stored message. *)
Definition query_of (em : Doc.t) : string :=
  let subj := or_empty (Doc.subject em) in
  let body := or_empty (or_else (Doc.body_text em) (Doc.body_html em)) in
  subj +:+ " " +:+ body.

Definition greeting : string := "Thank you for your email.".

(** The reply once the message and the winning document are known. *)
Definition compose (em : Doc.t) (best : option agenda_doc) : string :=
  let reply := greeting in
  let reply :=
    match best with
    | Some b => reply +:+ nl +:+ nl +:+ ag_content b
    | None => reply
    end in
  let reply :=
    if bool_decide (Doc.ai_category em = Some "Interested")
       && str_in "cal.com" (match best with
                            | Some b => ag_content b
                            | None => ""
                            end)
    then reply +:+ nl +:+ nl +:+ "You can book a slot using the link above."
    else reply in
  strip reply.

(** The value under the key ["suggestion"]; [email_id] is
    [req.email_id]. *)
Definition suggest_reply (lib : Library) (db : option database)
    (email_id : string) : outcome exn string :=
  match db with
  | None => Raise (Uncaught none_not_subscriptable)
  | Some d =>
      match ObjectId lib email_id with
      | Raise e => Raise (Uncaught e)
      | Ok oid =>
          match Store.find_one_by_id oid (emailmessage d) with
          | None => Raise (HTTPException 404 "Email not found")
          | Some em =>
              let docs := agendadoc d in
              Ok (compose em (fst (best_of (query_of em) docs)))
          end
      end
  end.

End Suggest.

(* ===================================================================== *)
(** * The design document's wording of part selection                     *)
(* ===================================================================== *)

(** The text of [s] before the first [sep]. *)
Fixpoint str_before (sep : ascii) (s : string) : string :=
  match s with
  | "" => ""
  | String c s' =>
      if Ascii.eqb c sep then "" else String c (str_before sep s')
  end.

(** The disposition type of a [Content-Disposition] value: what stands
    before the first [;], blanks and letter case apart. *)
Definition disposition_type (value : string) : string :=
  lower (strip (str_before ";" value)).

(** "An attachment disposition", as the design document words it: the
    part has a [Content-Disposition] header and its disposition type is
    [attachment]. *)
Definition attachment_disposition (part : message) : bool :=
  match Msg.get part "Content-Disposition" with
  | Some value => bool_decide (disposition_type value = "attachment")
  | None => false
  end.

(** "A part of that type without an attachment disposition". *)
Definition body_candidate (ctype : string) (part : message) : bool :=
  bool_decide (Msg.get_content_type part = ctype)
  && negb (attachment_disposition part).

(** The text of a part: its payload, decoded. *)
Definition part_text (lib : Library) (part : message) : string :=
  safe_decode lib (VBytes (default [] (Msg.get_payload_decoded part))).

(** "The last part of that type without an attachment disposition
    encountered in the walk", as the design document words it. *)
Definition last_part_of (ctype : string) (msg : message) : option message :=
  last (filter (λ p, body_candidate ctype p = true) (Msg.walk msg)).

(** The same among the parts that carry a payload. *)
Definition has_payload (part : message) : bool :=
  match Msg.get_payload_decoded part with
  | Some (_ :: _) => true
  | _ => false
  end.

Definition last_filled_part_of (ctype : string) (msg : message)
  : option message :=
  last (filter (λ p, body_candidate ctype p && has_payload p = true)
               (Msg.walk msg)).

(* ===================================================================== *)
(** * Vocabulary of the properties                                        *)
(* ===================================================================== *)

(** Some proper or improper tail of [k] starts [u]: an occurrence of [k]
    that begins before [u] may end inside it. *)
Definition overlaps (k u : string) : bool :=
  existsb (λ n, String.prefix (str_drop n k) u) (seq 0 (String.length k)).

(** The parts that one turn of the loop of [extract_body] takes a body
    of type [ctype] from: the test it makes on the content type and on
    the text of the disposition, and the guard on the payload. *)
Definition taken (ctype : string) (part : message) : bool :=
  bool_decide (Msg.get_content_type part = ctype)
  && negb (str_in "attachment" (disposition part))
  && has_payload part.

(** What the loop of [extract_body] holds for one content type after a
    list of parts, starting from [start]. *)
Definition picked (lib : Library) (ctype : string) (parts : list message)
    (start : option string) : option string :=
  match last (filter (λ p, taken ctype p = true) parts) with
  | Some p => Some (part_text lib p)
  | None => start
  end.

(** The world after a document was added to the message collection and
    the clock was read [n] more times. *)
Definition with_new_message {St} (doc : Doc.t) (n : nat) (d : database)
    (w : world St) : world St :=
  World (w_imap w)
        (Some (Database (emailmessage d ++ [doc]) (agendadoc d)))
        (w_tick w + n) (w_trace w).

(** How many stored messages carry the key [k]. *)
Definition count_key (k : string * string) (coll : list Doc.t) : nat :=
  length (filter (λ d, doc_key d = k) coll).

(** [m] keeps [I]: whatever [m] returns or raises, [I] still holds. *)
Definition preserves {St} (I : world St → Prop) {A} (m : M St A) : Prop :=
  ∀ w r w', I w → m w = (r, w') → I w'.




(** An invariant that looks at the store only. *)
Definition store_only {St} (I : world St → Prop) : Prop :=
  ∀ w w', w_db w' = w_db w → I w → I w'.

(* ===================================================================== *)
(** * A concrete mailbox, library and clock                               *)
(* ===================================================================== *)

(** A small installation on which the functions above are run: a library
    working on ASCII, a mail server with a few folders, and a clock. *)
Module Scenario.

Definition b (s : string) : bytes := list_byte_of_string s.

Definition plain (text : string) : message :=
  Leaf [("Content-Type", "text/plain")] "text/plain" (Some (b text)).

Definition m_alice : message :=
  Leaf [("Message-ID", "<a@x>"); ("Subject", "Re: offer");
        ("From", "alice@x"); ("To", "me@y");
        ("Date", "Mon, 01 Jan 2024 00:00:00 +0000")]
       "text/plain" (Some (b "Sorry, NOT INTERESTED.")).

Definition m_bob : message :=
  Multi [("Message-ID", "<b@x>"); ("Subject", "meeting");
         ("From", "bob@x"); ("Date", "tomorrow-ish")]
        "multipart/alternative"
        [plain "first draft"; plain "see calendly";
         Leaf [] "text/html" (Some (b "<p>see calendly</p>"))].

Definition m_carol : message :=
  Leaf [("Subject", "hello"); ("From", "carol@x")]
       "text/plain" (Some (b "nothing special")).

(** Two plain parts of which the second is empty. *)
Definition m_empty_last : message :=
  Multi [("Message-ID", "<e@x>")] "multipart/mixed"
        [plain "first"; Leaf [] "text/plain" (Some [])].

Definition table : list (string * message) :=
  [("raw-alice", m_alice); ("raw-bob", m_bob); ("raw-carol", m_carol);
   ("raw-empty-last", m_empty_last)].

Fixpoint lookup {A} (k : string) (l : list (string * A)) : option A :=
  match l with
  | [] => None
  | (k', v) :: l' => if bool_decide (k = k') then Some v else lookup k l'
  end.

(** The value of a hexadecimal digit, and of a text made of such. *)
Definition hex_digit (c : ascii) : option nat :=
  let n := nat_of_ascii c in
  if ((48 <=? n) && (n <=? 57))%nat then Some (n - 48)%nat
  else if ((97 <=? n) && (n <=? 102))%nat then Some (n - 87)%nat
  else if ((65 <=? n) && (n <=? 70))%nat then Some (n - 55)%nat
  else None.

Fixpoint hex_value (acc : nat) (s : string) : option nat :=
  match s with
  | "" => Some acc
  | String c s' =>
      match hex_digit c with
      | Some d => hex_value (16 * acc + d)%nat s'
      | None => None
      end
  end.

Definition lib : Library := {|
  bytes_decode_ignore bs :=
    string_of_list_byte (filter (λ x, (Byte.to_N x < 128)%N) bs);
  make_header_str s :=
    if str_in "=?" s then Raise (PyErr "UnicodeDecodeError" "bad word")
    else Ok s;
  parsedate_to_datetime s :=
    if bool_decide (s = "Mon, 01 Jan 2024 00:00:00 +0000")
    then Ok 1704067200
    else Raise (PyErr "ValueError" "Invalid date value or format");
  message_from_bytes raw :=
    default (Leaf [] "text/plain" (Some raw))
            (lookup (string_of_list_byte raw) table);
  ObjectId s :=
    match (if (String.length s =? 24)%nat then hex_value 0 s else None) with
    | Some i => Ok i
    | None =>
        Raise (PyErr "InvalidId"
                 ("'" +:+ s +:+ "' is not a valid ObjectId, it must be a "
                  +:+ "12-byte input or a 24-character hex string"))
    end;
|}.

(** The server behind the client of the standard library: the folder the
    client has selected is the state.  Selecting a folder the server does
    not have (["Missing"], say) is answered ["NO"], without raising, and
    leaves no folder selected; selecting ["Bad"] raises and leaves the
    selection as it was.  With no folder selected a search or a fetch
    raises; a search in ["Broken"] is answered ["NO"], and a search in
    ["Down"] raises. *)
Definition folders : list (string * list string) :=
  [("INBOX", ["1"; "2"; "3"]); ("Archive", ["1"]); ("Broken", []);
   ("Down", [])].

Definition mails : list (string * string) :=
  [("INBOX/1", "raw-alice"); ("INBOX/2", "raw-bob");
   ("INBOX/3", "raw-carol"); ("Archive/1", "raw-alice")].

Definition srv : Imap (option string) := {|
  imap_open s _ _ _ := (None, Ok tt);
  imap_login s username password :=
    if bool_decide (password = "secret") then (s, Ok tt)
    else (s, Raise (PyErr "error" "LOGIN failed"));
  imap_select s folder :=
    if bool_decide (folder = "Bad")
    then (s, Raise (PyErr "error" "EXAMINE command error: BAD [b'Bad name']"))
    else
      match lookup folder folders with
      | Some _ => (Some folder, Ok "OK")
      | None => (None, Ok "NO")
      end;
  imap_search s criterion :=
    match s with
    | None =>
        (s, Raise (PyErr "error"
                     ("command SEARCH illegal in state AUTH, "
                      +:+ "only allowed in states SELECTED")))
    | Some folder =>
        if bool_decide (folder = "Down")
        then (s, Raise (PyErr "abort" "socket error: EOF"))
        else if bool_decide (folder = "Broken") then (s, Ok ("NO", [None]))
        else
          (s, Ok ("OK",
                  [Some (b (String.concat " "
                              (default [] (lookup folder folders))))]))
    end;
  imap_fetch s num what :=
    match s with
    | None =>
        (s, Raise (PyErr "error"
                     ("command FETCH illegal in state AUTH, "
                      +:+ "only allowed in states SELECTED")))
    | Some folder =>
        match lookup (folder +:+ "/" +:+ string_of_list_byte num) mails with
        | Some raw => (s, Ok ("OK", [FTuple (b "RFC822") (b raw); FBytes (b ")")]))
        | None => (s, Ok ("OK", [FNone]))
        end
    end;
  imap_logout s := (None, Raise (PyErr "abort" "connection closed"));
|}.

Definition clk : Clock := {|
  since_date_of days :=
    if (days <? 700000)%Z then Ok "01-Jan-2024"
    else Raise (PyErr "OverflowError" "date value out of range");
  utc_now n := 1800000000 + Z.of_nat n;
|}.

Definition alice : account :=
  Account "acc-1" "imap.x" 993 "me@y" "secret" true.
Definition other : account :=
  Account "acc-2" "imap.x" 993 "you@y" "secret" true.

Definition w0 : world (option string) :=
  World None (Some (Database [] [])) 0 [].

(** The same message met in two folders of one account, then in the
    mailbox of another account. *)
Definition step1 := ingest lib clk alice "INBOX" (b "1") (b "raw-alice") 0 w0.
Definition step2 :=
  ingest lib clk alice "Archive" (b "1") (b "raw-alice") 1 (snd step1).
Definition step3 :=
  ingest lib clk other "INBOX" (b "1") (b "raw-alice") 0 (snd step2).

(** A stored message and two reference documents. *)
Definition em0 : Doc.t :=
  Doc.mk 0 "acc-1" "<q@x>" None "INBOX" (Some "Pricing question")
         (Some "carol@x") [] [] 0 "" (Some "What is the pricing for the team plan")
         None [] (Some "Interested") ∅ 0 0.

Definition doc_pricing : agenda_doc :=
  AgendaDoc "Pricing" "The team plan pricing starts at 10 USD, see cal.com/demo"
            None.

Definition doc_support : agenda_doc :=
  AgendaDoc "Support" "Write to support for help" None.

Definition db_suggest : database :=
  Database [em0] [doc_support; doc_pricing].

Definition two_runs : list (run_spec (option string)) :=
  [RunSpec clk srv None alice (Some ["INBOX"; "Archive"]) 7;
   RunSpec clk srv None other None 30].

End Scenario.

(* ===================================================================== *)
(** * Listing stored messages (main.py 285-317)                           *)
(* ===================================================================== *)

(** What the listing endpoints leave to the document database: how a
    [$regex] is judged and how a cursor is sorted, and the two errors the
    driver and the server answer with. *)
Record Query : Type := {
  (** whether the server accepts the pattern of a [$regex] *)
  regex_valid : string → bool;
  (** [{"$regex": q, "$options": "i"}] on a string field *)
  regex_search_i : string → string → bool;
  (** [.sort("date", -1)] *)
  sort_date_desc : list Doc.t → list Doc.t;
  (** what [.skip(n)] raises for a negative [n] *)
  skip_error : pyerr;
  (** what iterating the cursor raises for a pattern the server refuses *)
  regex_error : pyerr;
}.

Module Listing.

(** The filter document [flt]: a key is set only for a truthy argument. *)
Definition email_filter (qr : Query) (account_id folder q : option string)
    (d : Doc.t) : bool :=
  let hit (field : option string) :=
    match field with
    | Some text => regex_search_i qr (or_empty q) text
    | None => false
    end in
  (if truthy account_id
   then bool_decide (Doc.account_id d = or_empty account_id) else true)
  && (if truthy folder
      then bool_decide (Doc.folder d = or_empty folder) else true)
  && (if truthy q
      then hit (Doc.subject d) || hit (Doc.body_text d) || hit (Doc.body_html d)
      else true).

(** [min(200, max(1, limit))] *)
Definition page_size (limit : Z) : Z := Z.min 200 (Z.max 1 limit).

(** [list_emails]: the items and the value under ["count"].  ([to_str_oid]
    only changes how the identifier of an item is written.) *)
Definition list_emails (qr : Query) (db : option database)
    (account_id folder q : option string) (limit skip : Z)
  : outcome exn (list Doc.t * Z) :=
  match db with
  | None => Raise (Uncaught none_not_subscriptable)
  | Some d =>
      if skip <? 0 then Raise (Uncaught (skip_error qr))
      else if truthy q && negb (regex_valid qr (or_empty q))
      then Raise (Uncaught (regex_error qr))
      else
        let found :=
          filter (λ x, email_filter qr account_id folder q x = true)
                 (emailmessage d) in
        let docs :=
          take (Z.to_nat (page_size limit))
               (drop (Z.to_nat skip) (sort_date_desc qr found)) in
        Ok (docs, Z.of_nat (length docs))
  end.

(** The aggregation of [list_folders]: [$match] on the account, [$group]
    by folder with a count, [$sort] by folder name ascending. *)
Definition group_by_folder (docs : list Doc.t) : list (string * nat) :=
  (λ f, (f, length (filter (λ d, Doc.folder d = f) docs)))
    <$> remove_dups (Doc.folder <$> docs).

Definition list_folders (db : option database) (account_id : string)
  : outcome exn (list (string * nat)) :=
  match db with
  | None => Raise (Uncaught none_not_subscriptable)
  | Some d =>
      Ok (merge_sort (λ a b, String.le (fst a) (fst b))
            (group_by_folder
               (filter (λ x, Doc.account_id x = account_id)
                       (emailmessage d))))
  end.

End Listing.

(* ===================================================================== *)
(** * Further vocabulary                                                  *)
(* ===================================================================== *)

(** The record [ingest] builds for a message, given the three times it
    gets from the parsed header and the clock. *)
Definition record_of (lib : Library) (acct : account) (folder : string)
    (num raw : bytes) (date created updated : datetime) : Doc.t :=
  let msg := message_from_bytes lib raw in
  let subject := decode_mime_words lib (Msg.get msg "Subject") in
  let bodies := extract_body lib msg in
  Doc.mk 0 (acc_id acct)
         (message_key lib msg num folder (acc_username acct)) None folder
         subject (decode_mime_words lib (Msg.get msg "From"))
         (Msg.get_all msg "To") (Msg.get_all msg "Cc") date
         (str_take 280 (or_empty (or_else (fst bodies) (snd bodies))))
         (fst bodies) (snd bodies) []
         (categorize_email subject (or_else (fst bodies) (snd bodies)))
         (raw_headers_of lib msg) created updated.

(** The key of a message that has no usable [Message-ID] header. *)
Definition fallback_key (lib : Library) (num : bytes)
    (folder username : string) : string :=
  "uid-" +:+ safe_decode lib (VBytes num) +:+ "-" +:+ folder
         +:+ "-" +:+ username.

(** The sequence numbers fetched in a trace. *)
Definition fetched (tr : list imap_call) : list bytes :=
  omap (λ c, match c with CFetch num => Some num | _ => None end) tr.

(** [m], started with the count [inserted], appends records that all
    satisfy [P] and, when it returns, returns the count increased by
    their number. *)
Definition adds {St} (P : Doc.t → Prop) (inserted : Z) (m : M St Z) : Prop :=
  ∀ w r w', m w = (r, w') →
    ∃ new, messages_of w' = messages_of w ++ new
           ∧ Forall P new
           ∧ ∀ n, r = Ok n → n = inserted + Z.of_nat (length new).

(** [m] leaves the store alone. *)
Definition quiet {St A} (m : M St A) : Prop :=
  ∀ w r w', m w = (r, w') → w_db w' = w_db w.

(** [m] makes client calls that are all fetches, of a prefix of [nums],
    and moves the count up by at most one per fetch. *)
Definition fetches_within {St} (nums : list bytes) (inserted : Z)
    (m : M St Z) : Prop :=
  ∀ w r w', m w = (r, w') →
    ∃ done, w_trace w' = w_trace w ++ (CFetch <$> done)
            ∧ done `prefix_of` nums
            ∧ ∀ n, r = Ok n →
                   inserted ≤ n ≤ inserted + Z.of_nat (length done).

(** A sort by date, newest first, as a database may make it: the result
    is a rearrangement of the input in descending order of date.  In
    which order messages of equal date come is left open. *)
Definition sorts_by_date (srt : list Doc.t → list Doc.t) : Prop :=
  (∀ l, srt l ≡ₚ l)
  ∧ ∀ l, StronglySorted (λ a b, Doc.date b ≤ Doc.date a) (srt l).

(** The database [qr] for a query whose cursor it sorts by [srt]. *)
Definition sorting_with (srt : list Doc.t → list Doc.t) (qr : Query)
  : Query := {|
  regex_valid := regex_valid qr;
  regex_search_i := regex_search_i qr;
  sort_date_desc := srt;
  skip_error := skip_error qr;
  regex_error := regex_error qr;
|}.

(** Further cases for the concrete installation. *)
Module Cases.

(** An account whose password the server refuses. *)
Definition intruder : account :=
  Account "acc-3" "imap.x" 993 "me@y" "guess" true.

(** A plain part marked as an attachment. *)
Definition attached : message :=
  Leaf [("Content-Type", "text/plain");
        ("Content-Disposition", "attachment; filename=notes.txt")]
       "text/plain" (Some (Scenario.b "meeting notes")).

(** A message with notes attached after its two bodies. *)
Definition with_notes : message :=
  Multi [("Message-ID", "<n@x>"); ("Subject", "meeting")]
        "multipart/mixed"
        [Scenario.plain "see calendly";
         Leaf [] "text/html" (Some (Scenario.b "<p>see calendly</p>"));
         attached].

(** An attachment whose disposition type is written in capitals, and an
    inline part whose file name contains the word. *)
Definition shouted : message :=
  Leaf [("Content-Type", "text/plain");
        ("Content-Disposition", "ATTACHMENT; filename=a.txt")]
       "text/plain" (Some (Scenario.b "attached notes")).

Definition inlined : message :=
  Leaf [("Content-Type", "text/plain");
        ("Content-Disposition", "inline; filename=attachment-1.txt")]
       "text/plain" (Some (Scenario.b "the body")).

(** The world of the scenario once connected. *)
Definition connected : world (option string) :=
  World None (Some (Database [] [])) 0 [COpen; CLogin].

(** A store with two messages of one account and one of another. *)
Definition stored (i : nat) (aid mid folder : string) (date : Z) : Doc.t :=
  Doc.mk i aid mid None folder (Some "hello") (Some "x@y") [] [] date ""
         (Some "body") None [] None ∅ 0 0.

Definition db3 : database :=
  Database [stored 0 "acc-1" "<1>" "INBOX" 30;
            stored 1 "acc-2" "<2>" "INBOX" 20;
            stored 2 "acc-1" "<3>" "Archive" 10;
            stored 3 "acc-1" "<4>" "INBOX" 40] [].

(** Newest first. *)
Definition newer_first (a b : Doc.t) : Prop := Doc.date b ≤ Doc.date a.

#[global] Instance newer_first_dec : RelDecision newer_first.
Proof. intros a b. unfold newer_first. apply _. Defined.

(** Another sort by date, which goes through the messages from the last
    to the first: messages of equal date come in the opposite order. *)
Definition sort_from_last (l : list Doc.t) : list Doc.t :=
  merge_sort newer_first (rev l).

(** Two messages of the same date. *)
Definition twins : database :=
  Database [stored 0 "acc-1" "<1>" "INBOX" 30;
            stored 1 "acc-1" "<2>" "INBOX" 30] [].

(** The reference documents of the scenario, the better match first. *)
Definition db_suggest2 : database :=
  Database [Scenario.em0] [Scenario.doc_pricing; Scenario.doc_support].

(** A database that matches substrings without regard to case and sorts
    with a merge sort. *)
Definition qr : Query := {|
  regex_valid q := negb (str_in "(" q);
  regex_search_i q text := str_in (lower q) (lower text);
  sort_date_desc := merge_sort newer_first;
  skip_error := PyErr "ValueError" "skip must be >= 0";
  regex_error := PyErr "OperationFailure" "Regular expression is invalid";
|}.

End Cases.

(* ===================================================================== *)
(** * Properties                                                          *)
(* ===================================================================== *)

(** ** The functions on small inputs *)

Example categorize_not_interested :
  categorize_email (Some "Re: Demo")
                   (Some "Please UNSUBSCRIBE me, I am not interested")
  = Some "Not Interested".
Proof. reflexivity. Qed.

Example categorize_meeting_alone :
  categorize_email (Some "Team meeting") (Some "See you at the meeting") = None.
Proof. reflexivity. Qed.

Example categorize_interested_calendly :
  categorize_email None (Some "Interested, here is my calendly")
  = Some "Interested".
Proof. reflexivity. Qed.

Example str_split_blanks :
  str_split "  two  words " = ["two"; "words"].
Proof. reflexivity. Qed.

Example strip_blanks : strip "  a b  " = "a b".
Proof. reflexivity. Qed.

Example last_n_short : last_n 3 [1; 2; 3; 4; 5] = [3; 4; 5].
Proof. reflexivity. Qed.

Example extract_body_two_plain_parts :
  extract_body Scenario.lib Scenario.m_bob
  = (Some "see calendly", Some "<p>see calendly</p>").
Proof. reflexivity. Qed.

(** A run over four folders, one of which raises when it is selected and
    one of which answers the search with NO: three records, the copy of
    the first message in the archive being skipped. *)
Example sync_four_folders :
  let run :=
    sync_account Scenario.lib Scenario.clk Scenario.srv Scenario.alice
                 (Some ["INBOX"; "Bad"; "Broken"; "Archive"]) 7
                 Scenario.w0 in
  fst run = Ok 3
  ∧ (λ d, (Doc.message_id d, Doc.folder d, Doc.ai_category d, Doc.date d))
      <$> messages_of (snd run)
    = [("<a@x>", "INBOX", Some "Not Interested", 1704067200);
       ("<b@x>", "INBOX", Some "Meeting Booked", 1800000002);
       ("uid-3-INBOX-me@y", "INBOX", None, 1800000005)].
Proof. vm_compute. split; reflexivity. Qed.

(** ** Substrings *)

Section Substrings.

Lemma str_app_cons (c : ascii) (s t : string) :
  String c s +:+ t = String c (s +:+ t).
Proof. reflexivity. Qed.

Lemma lower_app (s t : string) : lower (s +:+ t) = lower s +:+ lower t.
Proof.
  induction s as [|c s IH]; [done|].
  rewrite str_app_cons. cbn [lower]. by rewrite IH, str_app_cons.
Qed.

Lemma str_app_assoc (s t u : string) : (s +:+ t) +:+ u = s +:+ (t +:+ u).
Proof.
  induction s as [|c s IH]; [done|]. by rewrite !str_app_cons, IH.
Qed.

Lemma prefix_app_l (k t u : string) :
  String.prefix k t = true → String.prefix k (t +:+ u) = true.
Proof.
  revert k. induction t as [|c t IH]; intros [|a k] H; try done.
  - by destruct u.
  - rewrite str_app_cons. simpl in H |- *.
    destruct (ascii_dec a c); [by apply IH | done].
Qed.

Lemma prefix_app_inv (k t u : string) :
  String.prefix k (t +:+ u) = true →
  String.prefix k t = true ∨
  ((String.length t < String.length k)%nat
   ∧ String.prefix (str_drop (String.length t) k) u = true).
Proof.
  revert k. induction t as [|c t IH]; intros k H.
  - destruct k as [|a k]; [by left|]. right. split; [simpl; lia | done].
  - destruct k as [|a k]; [by left|].
    rewrite str_app_cons in H. simpl in H |- *.
    destruct (ascii_dec a c); [|done].
    destruct (IH _ H) as [?|[? ?]]; [by left|]. right. split; [lia | done].
Qed.

Lemma str_in_prefix (k s : string) :
  String.prefix k s = true → str_in k s = true.
Proof. intros H. destruct s; simpl in *; rewrite H; done. Qed.

Lemma str_in_app_l (k t u : string) :
  str_in k t = true → str_in k (t +:+ u) = true.
Proof.
  induction t as [|c t IH]; intros H.
  - simpl in H. rewrite orb_false_r in H.
    apply str_in_prefix. change ("" +:+ u) with u.
    destruct k; [by destruct u | done].
  - change (String c t +:+ u) with (String c (t +:+ u)).
    cbn [str_in] in H |- *. apply orb_true_iff in H as [H|H].
    + apply (prefix_app_l _ _ u) in H.
      change (String c t +:+ u) with (String c (t +:+ u)) in H.
      by rewrite H.
    + rewrite (IH H). apply orb_true_r.
Qed.

Lemma str_in_app_r (k t u : string) :
  str_in k u = true → str_in k (t +:+ u) = true.
Proof.
  intros H. induction t as [|c t IH]; [done|].
  change (String c t +:+ u) with (String c (t +:+ u)).
  cbn [str_in]. rewrite IH. apply orb_true_r.
Qed.

Lemma str_in_app_inv (k t u : string) :
  str_in k (t +:+ u) = true →
  str_in k t = true ∨ str_in k u = true ∨ overlaps k u = true.
Proof.
  induction t as [|c t IH]; intros H; [by right; left|].
  change (String c t +:+ u) with (String c (t +:+ u)) in H.
  cbn [str_in] in H. apply orb_true_iff in H as [H|H].
  - change (String c (t +:+ u)) with (String c t +:+ u) in H.
    apply prefix_app_inv in H as [H|[Hlen H]].
    + left. by apply str_in_prefix.
    + right; right. apply existsb_exists. eexists. split; [|exact H].
      apply in_seq. lia.
  - destruct (IH H) as [?|?]; [|by right].
    left. cbn [str_in]. rewrite H0. apply orb_true_r.
Qed.

(** Appending [u] to a text brings in no term of [ks] unless one lies
    in [u] or across its start. *)
Lemma any_in_app_inv (ks : list string) (t u : string) :
  any_in ks t = false →
  existsb (λ k, str_in k u || overlaps k u) ks = false →
  any_in ks (t +:+ u) = false.
Proof.
  unfold any_in. intros Ht Hu.
  apply not_true_iff_false. intros H.
  apply existsb_exists in H as (k & Hk & H).
  apply str_in_app_inv in H as [H|H].
  - apply not_true_iff_false in Ht. apply Ht, existsb_exists. eauto.
  - apply not_true_iff_false in Hu. apply Hu, existsb_exists.
    exists k. split; [done|]. apply orb_true_iff. tauto.
Qed.

Lemma any_in_intro (ks : list string) (k t : string) :
  In k ks → str_in k t = true → any_in ks t = true.
Proof. intros ??. apply existsb_exists. eauto. Qed.

End Substrings.

(** ** The classifier *)

Section ClassifierProperties.

Lemma email_text_append (subject body : option string) (u : string) :
  email_text subject (Some (or_empty body +:+ u))
  = email_text subject body +:+ lower u.
Proof.
  unfold email_text. cbn [or_empty].
  rewrite <- lower_app, !str_app_assoc. done.
Qed.

(** Rule 3 in isolation: with no term of rules 1 and 2, a meeting-intent
    term and a scheduling-artifact term give "Meeting Booked". *)
Lemma categorize_meeting_booked (subject body : option string) :
  any_in out_of_office_terms (email_text subject body) = false →
  any_in not_interested_terms (email_text subject body) = false →
  any_in meeting_intent_terms (email_text subject body) = true →
  any_in meeting_artifact_terms (email_text subject body) = true →
  categorize_email subject body = Some "Meeting Booked".
Proof. unfold categorize_email. by intros -> -> -> ->. Qed.

End ClassifierProperties.

(** C3, as the code has it.  When the lower-cased text of subject and body
    contains both "unsubscribe" and "interested", the classifier never
    answers "Interested": it answers "Out of Office" when a term of rule 1
    is present too, and "Not Interested" otherwise. *)
Theorem categorize_unsubscribe_before_interested
    (subject body : option string) :
  str_in "unsubscribe" (email_text subject body) = true →
  str_in "interested" (email_text subject body) = true →
  categorize_email subject body ≠ Some "Interested"
  ∧ categorize_email subject body
    = if any_in out_of_office_terms (email_text subject body)
      then Some "Out of Office" else Some "Not Interested".
Proof.
  intros Hu _.
  assert (any_in not_interested_terms (email_text subject body) = true) as Hni.
  { apply (any_in_intro _ "unsubscribe"); [|done]. simpl. tauto. }
  unfold categorize_email. rewrite Hni.
  destruct (any_in out_of_office_terms _); done.
Qed.

Lemma categorize_unsubscribe_before_interested_witness :
  categorize_email (Some "Re: Demo")
                   (Some "Please UNSUBSCRIBE me, I am not interested")
  = Some "Not Interested".
Proof.
  destruct (categorize_unsubscribe_before_interested
              (Some "Re: Demo")
              (Some "Please UNSUBSCRIBE me, I am not interested"))
    as [_ H]; [reflexivity | reflexivity | exact H].
Defined.

(** C3 as stated fails: an automatic reply that contains both words is
    "Out of Office", since rule 1 is tried before rule 2. *)
Lemma categorize_unsubscribe_counterexample :
  let subject := Some "Automatic reply: your offer" in
  let body := Some "Interested, but away. To unsubscribe, answer STOP." in
  str_in "unsubscribe" (email_text subject body) = true
  ∧ str_in "interested" (email_text subject body) = true
  ∧ categorize_email subject body = Some "Out of Office"
  ∧ categorize_email subject body ≠ Some "Not Interested".
Proof. repeat split; try reflexivity. discriminate. Qed.

(** C4.  A message whose text contains "meeting", no scheduling-artifact
    term and no term of rules 1, 2, 4 and 5 is left unclassified; the same
    message with " calendly" added at the end of its body is
    "Meeting Booked". *)
Theorem meeting_booked_needs_both (subject body : option string) :
  str_in "meeting" (email_text subject body) = true →
  any_in meeting_artifact_terms (email_text subject body) = false →
  any_in out_of_office_terms (email_text subject body) = false →
  any_in not_interested_terms (email_text subject body) = false →
  any_in interested_terms (email_text subject body) = false →
  any_in spam_terms (email_text subject body) = false →
  categorize_email subject body = None
  ∧ categorize_email subject (Some (or_empty body +:+ " calendly"))
    = Some "Meeting Booked".
Proof.
  intros Hm Ha H1 H2 H4 H5. split.
  - unfold categorize_email. rewrite H1, H2, Ha, H4, H5.
    by destruct (any_in meeting_intent_terms _).
  - apply categorize_meeting_booked; rewrite email_text_append.
    + by apply any_in_app_inv.
    + by apply any_in_app_inv.
    + apply (any_in_intro _ "meeting"); [simpl; tauto|].
      by apply str_in_app_l.
    + apply (any_in_intro _ "calendly"); [simpl; tauto|].
      by apply str_in_app_r.
Qed.

Lemma meeting_booked_needs_both_witness :
  categorize_email (Some "Team meeting") (Some "See you at the Meeting") = None
  ∧ categorize_email (Some "Team meeting")
                     (Some ("See you at the Meeting" +:+ " calendly"))
    = Some "Meeting Booked".
Proof.
  apply (meeting_booked_needs_both (Some "Team meeting")
           (Some "See you at the Meeting")); reflexivity.
Defined.

(** ** The decoder *)

Section DecoderProperties.
Context (lib : Library).

Lemma picked_cons_hit ctype p parts start :
  taken ctype p = true →
  picked lib ctype (p :: parts) start
  = picked lib ctype parts (Some (part_text lib p)).
Proof.
  intros H. unfold picked. rewrite filter_cons_True by done.
  rewrite last_cons. by destruct (last _).
Qed.

Lemma picked_cons_miss ctype p parts start :
  taken ctype p = false →
  picked lib ctype (p :: parts) start = picked lib ctype parts start.
Proof.
  intros H. unfold picked. rewrite filter_cons_False; [done|].
  by rewrite H.
Qed.

Lemma taken_exclusive p :
  taken "text/plain" p = true → taken "text/html" p = false.
Proof.
  unfold taken. intros [[H _]%andb_true_iff _]%andb_true_iff.
  apply bool_decide_eq_true in H. rewrite H. done.
Qed.

(** The three ways one turn of the loop can go. *)
Lemma extract_part_plain acc p :
  taken "text/plain" p = true →
  extract_part lib acc p = (Some (part_text lib p), snd acc).
Proof.
  unfold taken, has_payload, extract_part, part_text.
  intros [-> Hpay]%andb_true_iff. destruct acc as [text html].
  by destruct (Msg.get_payload_decoded p) as [[|x payload]|].
Qed.

Lemma extract_part_html acc p :
  taken "text/html" p = true →
  extract_part lib acc p = (fst acc, Some (part_text lib p)).
Proof.
  unfold taken, has_payload, extract_part, part_text.
  intros [Hhtml Hpay]%andb_true_iff. rewrite Hhtml.
  apply andb_true_iff in Hhtml as [Hc _].
  apply bool_decide_eq_true in Hc. rewrite Hc.
  destruct acc as [text html]. cbn [bool_decide andb fst].
  rewrite bool_decide_eq_false_2 by done. cbn [andb].
  by destruct (Msg.get_payload_decoded p) as [[|x payload]|].
Qed.

Lemma extract_part_other acc p :
  taken "text/plain" p = false →
  taken "text/html" p = false →
  extract_part lib acc p = acc.
Proof.
  unfold taken, has_payload, extract_part.
  intros Hplain Hhtml. destruct acc as [text html].
  destruct (bool_decide (Msg.get_content_type p = "text/plain") && _);
    [|destruct (bool_decide (Msg.get_content_type p = "text/html") && _)];
    by destruct (Msg.get_payload_decoded p) as [[|x payload]|].
Qed.

Lemma extract_parts_picked parts text html :
  fold_left (extract_part lib) parts (text, html)
  = (picked lib "text/plain" parts text, picked lib "text/html" parts html).
Proof.
  revert text html. induction parts as [|p parts IH]; intros text html.
  { done. }
  cbn [fold_left].
  destruct (taken "text/plain" p) eqn:Hplain.
  - rewrite (picked_cons_hit "text/plain") by done.
    rewrite (picked_cons_miss "text/html") by (by apply taken_exclusive).
    by rewrite extract_part_plain, IH.
  - rewrite (picked_cons_miss "text/plain") by done.
    destruct (taken "text/html" p) eqn:Hhtml.
    + rewrite (picked_cons_hit "text/html") by done.
      by rewrite extract_part_html, IH.
    + rewrite (picked_cons_miss "text/html") by done.
      by rewrite extract_part_other, IH.
Qed.

(** Two tests that agree on every item of a list select the same
    items. *)
Lemma filter_agree {A} (f g : A → bool) (l : list A) :
  Forall (λ x, f x = g x) l →
  filter (λ x, f x = true) l = filter (λ x, g x = true) l.
Proof.
  induction 1 as [|x l Hx _ IH]; [done|].
  rewrite !filter_cons, IH, Hx. done.
Qed.

End DecoderProperties.

(** C5, as the code has it.  Take a multipart message in which the text
    of a part's [Content-Disposition] header contains "attachment"
    exactly when the part has an attachment disposition.  Then
    [body_text] is the decoded payload of the last part of the walk that
    is [text/plain], has no attachment disposition and carries a
    non-empty payload, and [body_html] that of the last such [text/html]
    part; each is [None] when there is no such part. *)
Theorem extract_body_last_filled_part (lib : Library) (msg : message) :
  Msg.is_multipart msg = true →
  Forall (λ p, str_in "attachment" (disposition p) = attachment_disposition p)
         (Msg.walk msg) →
  extract_body lib msg
  = (part_text lib <$> last_filled_part_of "text/plain" msg,
     part_text lib <$> last_filled_part_of "text/html" msg).
Proof.
  intros Hm Hagree. unfold extract_body. rewrite Hm.
  rewrite extract_parts_picked. unfold picked, last_filled_part_of.
  assert (∀ ctype,
            filter (λ p, taken ctype p = true) (Msg.walk msg)
            = filter (λ p, body_candidate ctype p && has_payload p = true)
                     (Msg.walk msg)) as Hsame.
  { intros ctype. apply filter_agree.
    eapply Forall_impl; [exact Hagree|]. intros p Hp.
    unfold taken, body_candidate. by rewrite Hp. }
  rewrite !Hsame. f_equal; by destruct (last _).
Qed.

Lemma extract_body_last_filled_part_witness :
  extract_body Scenario.lib Cases.with_notes
  = (Some "see calendly", Some "<p>see calendly</p>").
Proof.
  rewrite (extract_body_last_filled_part Scenario.lib Cases.with_notes);
    [reflexivity | reflexivity | repeat constructor].
Defined.

(** C5 as stated fails: when the last [text/plain] part without an
    attachment disposition is empty, [body_text] is not taken from it but
    from the last one before it that has content. *)
Lemma extract_body_last_part_counterexample :
  let msg := Scenario.m_empty_last in
  Msg.is_multipart msg = true
  ∧ last_part_of "text/plain" msg = Some (Leaf [] "text/plain" (Some []))
  ∧ part_text Scenario.lib <$> last_part_of "text/plain" msg = Some ""
  ∧ fst (extract_body Scenario.lib msg) = Some "first"
  ∧ fst (extract_body Scenario.lib msg)
    ≠ part_text Scenario.lib <$> last_part_of "text/plain" msg.
Proof. repeat split; try reflexivity. discriminate. Qed.

(** Where the text of the header and the disposition part ways: a part
    whose disposition type is written in capitals has an attachment
    disposition and is taken as the body all the same, and an inline part
    whose file name contains the word is passed over. *)
Example attachment_test_is_textual :
  attachment_disposition Cases.shouted = true
  ∧ str_in "attachment" (disposition Cases.shouted) = false
  ∧ attachment_disposition Cases.inlined = false
  ∧ str_in "attachment" (disposition Cases.inlined) = true
  ∧ extract_body Scenario.lib
      (Multi [] "multipart/mixed" [Cases.inlined; Cases.shouted])
    = (Some "attached notes", None).
Proof. repeat split; reflexivity. Qed.

(** ** The synchronisation run: what one message does to the store *)

Section IngestProperties.
Context {St : Type} (lib : Library) (clk : Clock).

(** The three ways [ingest] can go. *)
Lemma ingest_cases acct folder num raw inserted (w : world St) :
  let msg := message_from_bytes lib raw in
  let key := message_key lib msg num folder (acc_username acct) in
  match w_db w with
  | None =>
      ingest lib clk acct folder num raw inserted w
      = (Raise none_not_subscriptable, w)
  | Some d =>
      match Store.find_one_by_key key (acc_id acct) (emailmessage d) with
      | Some _ =>
          ingest lib clk acct folder num raw inserted w = (Ok inserted, w)
      | None =>
          ∃ doc n,
            ingest lib clk acct folder num raw inserted w
            = (Ok (inserted + 1), with_new_message doc n d w)
            ∧ doc_key doc = (acc_id acct, key)
            ∧ Doc.uid doc = None
            ∧ Doc.folder doc = folder
            ∧ Doc.date doc
              = default (utc_now clk (w_tick w)) (parse_date lib msg)
      end
  end.
Proof.
  intros msg key. unfold ingest. fold msg. fold key.
  destruct (extract_body lib msg) as [body_text body_html].
  unfold bind, db_find_one, db_emailmessage, bind, ret.
  destruct (w_db w) as [d|] eqn:Hdb; [|done].
  destruct (Store.find_one_by_key _ _ _) eqn:Hfind; [done|].
  unfold db_insert_one, db_emailmessage, bind, now_utc, ret.
  destruct (parse_date lib msg) as [dt|]; cbn; rewrite Hdb; cbn;
    eexists _, _; (split; [unfold with_new_message; do 2 f_equal|done]).
  - instantiate (1 := 2%nat). lia.
  - instantiate (1 := 3%nat). lia.
Qed.

Lemma find_one_by_key_None mid aid coll :
  Store.find_one_by_key mid aid coll = None →
  (aid, mid) ∉ doc_key <$> coll.
Proof.
  unfold Store.find_one_by_key. intros H Hin.
  apply list_elem_of_fmap in Hin as (d & Hk & Hd).
  apply list_elem_of_In in Hd.
  eapply find_none in H; [|exact Hd]. apply bool_decide_eq_false in H.
  unfold doc_key in Hk. naive_solver.
Qed.

Lemma find_one_by_key_Some mid aid coll doc :
  Store.find_one_by_key mid aid coll = Some doc →
  doc ∈ coll ∧ doc_key doc = (aid, mid).
Proof.
  unfold Store.find_one_by_key. intros H. apply find_some in H as [Hin H].
  apply bool_decide_eq_true in H as [H1 H2].
  split; [by apply list_elem_of_In|]. unfold doc_key. by rewrite H1, H2.
Qed.

Lemma find_one_by_key_is_Some mid aid coll :
  is_Some (Store.find_one_by_key mid aid coll)
  ↔ (aid, mid) ∈ doc_key <$> coll.
Proof.
  split.
  - intros [doc [Hin Hk]%find_one_by_key_Some].
    apply list_elem_of_fmap. eauto.
  - intros Hin. destruct (Store.find_one_by_key mid aid coll) eqn:H; [eauto|].
    by apply find_one_by_key_None in H.
Qed.

End IngestProperties.

(** ** Invariants of a run *)

Section Invariants.
Context {St : Type} (lib : Library) (clk : Clock) (srv : Imap St).

Lemma preserves_ret (I : world St → Prop) {A} (a : A) :
  preserves I (ret a).
Proof. intros w r w' HI [= _ <-]. done. Qed.

Lemma preserves_bind (I : world St → Prop) {A B}
    (m : M St A) (k : A → M St B) :
  preserves I m → (∀ a, preserves I (k a)) → preserves I (bind m k).
Proof.
  intros Hm Hk w r w' HI. unfold bind.
  destruct (m w) as [[a|e] w1] eqn:E; intros H.
  - eapply Hk; [|exact H]. eapply Hm; eauto.
  - injection H as _ <-. eapply Hm; eauto.
Qed.

Lemma preserves_try (I : world St → Prop) {A} (m : M St A) :
  preserves I m → preserves I (try_ m).
Proof.
  intros Hm w r w' HI. unfold try_.
  destruct (m w) as [r1 w1] eqn:E. intros [= _ <-]. eapply Hm; eauto.
Qed.

Lemma store_only_call (I : world St → Prop) c {A}
    (step : St → St * outcome pyerr A) :
  store_only I → preserves I (call c step).
Proof.
  intros HI w r w' Hw. unfold call.
  destruct (step (w_imap w)) as [s' r']. intros [= _ <-].
  eapply HI; [|exact Hw]. done.
Qed.

Section Lifting.
Context (I : world St → Prop).
Hypothesis I_call :
  ∀ c A (step : St → St * outcome pyerr A),
    c ≠ CLogout → preserves I (call c step).
Hypothesis I_ingest :
  ∀ acct folder num raw inserted,
    preserves I (ingest lib clk acct folder num raw inserted).

Lemma sync_message_preserves acct folder num inserted :
  preserves I (sync_message lib clk srv acct folder num inserted).
Proof.
  unfold sync_message. apply preserves_bind.
  - by apply I_call.
  - intros [typ msg_data].
    destruct (negb _ || _); [apply preserves_ret|].
    destruct (first_tuple msg_data) as [[|x raw]|];
      auto using preserves_ret.
Qed.

Lemma sync_messages_preserves acct folder nums inserted :
  preserves I (sync_messages lib clk srv acct folder nums inserted).
Proof.
  revert inserted. induction nums as [|num nums IH]; intros inserted.
  - apply preserves_ret.
  - cbn [sync_messages]. apply preserves_bind; [|done].
    apply sync_message_preserves.
Qed.

Lemma sync_folder_preserves acct since folder inserted :
  preserves I (sync_folder lib clk srv acct since folder inserted).
Proof.
  unfold sync_folder. apply preserves_bind.
  - apply preserves_try. by apply I_call.
  - intros [_|_]; [|apply preserves_ret].
    apply preserves_bind; [by apply I_call|].
    intros [typ data]. destruct (negb _); [apply preserves_ret|].
    apply sync_messages_preserves.
Qed.

Lemma sync_folders_preserves acct since folders inserted :
  preserves I (sync_folders lib clk srv acct since folders inserted).
Proof.
  revert inserted. induction folders as [|f folders IH]; intros inserted.
  - apply preserves_ret.
  - cbn [sync_folders]. apply preserves_bind; [|done].
    apply sync_folder_preserves.
Qed.

Lemma sync_loops_preserves acct folders days :
  preserves I (sync_loops lib clk srv acct folders days).
Proof.
  unfold sync_loops. apply preserves_bind.
  - intros w r w' HI. unfold since_date. by intros [= _ <-].
  - intros since. apply sync_folders_preserves.
Qed.

End Lifting.

(** A store invariant kept by [ingest] is kept by a whole run. *)
Lemma sync_account_preserves (I : world St → Prop) acct folders days w :
  store_only I →
  (∀ acct folder num raw inserted,
      preserves I (ingest lib clk acct folder num raw inserted)) →
  I w →
  I (snd (sync_account lib clk srv acct folders days w)).
Proof.
  intros Hstore Hingest HI.
  assert (∀ c A (step : St → St * outcome pyerr A),
            preserves I (call c step)) as Hcall
    by (intros; by apply store_only_call).
  unfold sync_account.
  destruct (connect_imap _ _ _ _ _ _ w) as [[[]|e] w1] eqn:Hconn.
  - assert (I w1) as HI1.
    { revert Hconn. apply (preserves_bind I); [apply Hcall| |done].
      intros _. apply preserves_bind; [apply Hcall|].
      intros _. apply preserves_ret. }
    destruct (sync_try _ _ _ _ _ _ w1) as [[n|e] w2] eqn:Htry.
    + cbn. revert Htry. apply (preserves_bind I); [| |done].
      * apply sync_loops_preserves; auto.
      * intros n'. apply preserves_bind; [|intros; apply preserves_ret].
        apply preserves_try, Hcall.
    + assert (I w2) as HI2.
      { revert Htry. apply (preserves_bind I); [| |done].
        * apply sync_loops_preserves; auto.
        * intros n'. apply preserves_bind; [|intros; apply preserves_ret].
          apply preserves_try, Hcall. }
      destruct (try_ (M_logout srv) w2) as [r3 w3] eqn:Hlo. cbn.
      revert Hlo. apply (preserves_try I); [apply Hcall|done].
  - cbn. revert Hconn. apply (preserves_bind I); [apply Hcall| |done].
    intros _. apply preserves_bind; [apply Hcall|].
    intros _. apply preserves_ret.
Qed.

End Invariants.

(** ** What a run adds to the store *)

Section StoreGrowth.
Context {St : Type} (lib : Library) (clk : Clock).

Lemma count_key_app k l1 l2 :
  count_key k (l1 ++ l2) = (count_key k l1 + count_key k l2)%nat.
Proof. unfold count_key. by rewrite filter_app, length_app. Qed.

Lemma count_key_absent k coll :
  k ∉ doc_key <$> coll → count_key k coll = 0%nat.
Proof.
  unfold count_key. induction coll as [|d coll IH]; [done|].
  rewrite fmap_cons, not_elem_of_cons. intros [Hne Hnin].
  rewrite filter_cons_False by done. auto.
Qed.

Lemma count_key_unique k coll :
  NoDup (doc_key <$> coll) → k ∈ doc_key <$> coll → count_key k coll = 1%nat.
Proof.
  induction coll as [|d coll IH]; [by intros _ ?%elem_of_nil|].
  rewrite fmap_cons, NoDup_cons, elem_of_cons. intros [Hd Hnd] Hin.
  change (d :: coll) with ([d] ++ coll). rewrite count_key_app.
  destruct (decide (doc_key d = k)) as [<-|Hne].
  - rewrite (count_key_absent _ coll) by done.
    unfold count_key. by rewrite filter_cons_True.
  - destruct Hin as [?|Hin]; [done|]. rewrite IH by done.
    unfold count_key. by rewrite filter_cons_False.
Qed.

(** The message collection after [ingest]: unchanged, or longer by one
    document that has the key of the message, a key not stored before,
    and no [uid]. *)
Lemma ingest_messages acct folder num raw inserted (w w' : world St) r :
  let key :=
    message_key lib (message_from_bytes lib raw) num folder
                (acc_username acct) in
  ingest lib clk acct folder num raw inserted w = (r, w') →
  (messages_of w' = messages_of w
   ∧ (r = Ok inserted →
      (acc_id acct, key) ∈ doc_key <$> messages_of w))
  ∨ (∃ doc, messages_of w' = messages_of w ++ [doc]
            ∧ r = Ok (inserted + 1)
            ∧ doc_key doc = (acc_id acct, key)
            ∧ Doc.uid doc = None
            ∧ (acc_id acct, key) ∉ doc_key <$> messages_of w).
Proof.
  intros key H.
  pose proof (ingest_cases lib clk acct folder num raw inserted w) as Hc.
  cbn zeta in Hc. fold key in Hc.
  destruct (w_db w) as [d|] eqn:Hdb.
  - assert (messages_of w = emailmessage d) as Hm
      by (unfold messages_of; by rewrite Hdb).
    rewrite Hm.
    destruct (Store.find_one_by_key _ _ _) eqn:Hfind.
    + rewrite Hc in H. injection H as <- <-. left.
      split; [done|]. intros _.
      apply find_one_by_key_is_Some. by rewrite Hfind.
    + destruct Hc as (doc & n & Hi & Hk & Hu & _).
      rewrite Hi in H. injection H as <- <-. right. exists doc.
      split; [done|]. split; [done|]. split; [done|]. split; [done|].
      by apply find_one_by_key_None.
  - rewrite Hc in H. injection H as <- <-. by left.
Qed.

Lemma ingest_keeps_unique_keys acct folder num raw inserted :
  preserves (λ w : world St, NoDup (doc_key <$> messages_of w))
            (ingest lib clk acct folder num raw inserted).
Proof.
  intros w r w' HI H. apply ingest_messages in H as [[-> _]|H]; [done|].
  destruct H as (doc & -> & _ & Hk & _ & Hnin).
  rewrite fmap_app. apply NoDup_app. repeat split; [done| |].
  - intros k Hin. cbn. rewrite Hk. intros ->%list_elem_of_singleton. done.
  - cbn. apply NoDup_singleton.
Qed.

Lemma ingest_adds_without_uid (w0 : world St) acct folder num raw inserted :
  preserves (λ w : world St,
               ∃ new, messages_of w = messages_of w0 ++ new
                      ∧ Forall (λ d, Doc.uid d = None) new)
            (ingest lib clk acct folder num raw inserted).
Proof.
  intros w r w' (new & Hnew & Hall) H.
  apply ingest_messages in H as [[-> _]|H]; [by exists new|].
  destruct H as (doc & -> & _ & _ & Hu & _).
  exists (new ++ [doc]). rewrite Hnew, (assoc_L (++)). split; [done|].
  apply Forall_app. split; [done|]. by apply Forall_singleton.
Qed.

Lemma ingest_keeps_uid_none acct folder num raw inserted :
  preserves (λ w : world St, Forall (λ d, Doc.uid d = None) (messages_of w))
            (ingest lib clk acct folder num raw inserted).
Proof.
  intros w r w' HI H. apply ingest_messages in H as [[-> _]|H]; [done|].
  destruct H as (doc & -> & _ & _ & Hu & _).
  apply Forall_app. split; [done|]. by apply Forall_singleton.
Qed.

Lemma update_category_uid i c coll :
  Doc.uid <$> Store.update_category i c coll = Doc.uid <$> coll.
Proof.
  induction coll as [|d coll IH]; [done|]. cbn.
  case_bool_decide; cbn; [done | by rewrite IH].
Qed.

End StoreGrowth.

Section RunSequences.
Context {St : Type} (lib : Library).

(** A store invariant that every run keeps holds after any sequence of
    runs. *)
Lemma sync_runs_preserves (I : world St → Prop) runs (w : world St) :
  store_only I →
  (∀ clk acct folder num raw inserted,
      preserves I (ingest lib clk acct folder num raw inserted)) →
  I w → I (sync_runs lib runs w).
Proof.
  intros Hstore Hingest. revert w.
  induction runs as [|r runs IH]; intros w HI; [done|].
  cbn [sync_runs]. apply IH. apply sync_account_preserves; [done..|].
  eapply Hstore; [|exact HI]. done.
Qed.

End RunSequences.

(** ** Deduplication *)

Section Dedup.
Context {St : Type} (lib : Library) (clk : Clock).

Lemma message_key_header msg num folder username mid :
  Msg.get msg "Message-ID" = Some mid → mid ≠ "" →
  message_key lib msg num folder username = mid.
Proof. unfold message_key. intros -> ?. by destruct mid. Qed.

(** With a database, [ingest] returns; afterwards the key of the message
    is stored, and it was inserted only if it was not stored before. *)
Lemma ingest_available acct folder num raw inserted (w : world St) d :
  let k := (acc_id acct,
            message_key lib (message_from_bytes lib raw) num folder
                        (acc_username acct)) in
  let s := ingest lib clk acct folder num raw inserted w in
  w_db w = Some d →
  NoDup (doc_key <$> emailmessage d) →
  ∃ d', w_db (snd s) = Some d'
        ∧ NoDup (doc_key <$> emailmessage d')
        ∧ k ∈ doc_key <$> emailmessage d'
        ∧ (∀ k', k' ∈ doc_key <$> emailmessage d →
                 k' ∈ doc_key <$> emailmessage d')
        ∧ (k ∈ doc_key <$> emailmessage d → s = (Ok inserted, w))
        ∧ (k ∉ doc_key <$> emailmessage d → fst s = Ok (inserted + 1)).
Proof.
  intros k s Hdb Hnd.
  pose proof (ingest_cases lib clk acct folder num raw inserted w) as Hc.
  cbn zeta in Hc. rewrite Hdb in Hc.
  destruct (Store.find_one_by_key _ _ _) eqn:Hfind.
  - assert (k ∈ doc_key <$> emailmessage d) as Hin.
    { apply find_one_by_key_is_Some. by rewrite Hfind. }
    exists d. subst s. rewrite Hc. cbn. repeat split; try done.
  - apply find_one_by_key_None in Hfind.
    destruct Hc as (doc & n & Hi & Hk & _).
    exists (Database (emailmessage d ++ [doc]) (agendadoc d)).
    subst s. rewrite Hi. cbn. rewrite fmap_app. cbn. rewrite Hk.
    split; [done|]. split.
    { apply NoDup_app. split; [done|]. split; [|apply NoDup_singleton].
      intros k' Hin ->%list_elem_of_singleton. done. }
    split; [apply elem_of_app; right; by apply list_elem_of_singleton|].
    split; [intros k' ?; apply elem_of_app; by left|].
    split; done.
Qed.

End Dedup.

(** C2.  A message is stored at most once per pair of account and
    Message-ID.  Starting from a store without duplicate keys: after a
    message with a given Message-ID header was handled for account [a],
    exactly one record has that key; the same Message-ID met in another
    folder of [a] is skipped (count and store unchanged); handled for a
    different account [b] it is stored once more, so that there is one
    record for each account; and after any sequence of runs the store
    still has no duplicate key. *)
Theorem dedup_by_account_and_message_id {St} (lib : Library) (clk : Clock)
    (runs : list (run_spec St)) (w : world St) (d : database)
    (a b : account) (f1 f2 f3 : string) (num1 num2 num3 : bytes)
    (raw1 raw2 raw3 : bytes) (n1 n2 n3 : Z) (mid : string) :
  let s1 := ingest lib clk a f1 num1 raw1 n1 w in
  let s2 := ingest lib clk a f2 num2 raw2 n2 (snd s1) in
  let s3 := ingest lib clk b f3 num3 raw3 n3 (snd s2) in
  w_db w = Some d →
  NoDup (doc_key <$> emailmessage d) →
  mid ≠ "" →
  Msg.get (message_from_bytes lib raw1) "Message-ID" = Some mid →
  Msg.get (message_from_bytes lib raw2) "Message-ID" = Some mid →
  Msg.get (message_from_bytes lib raw3) "Message-ID" = Some mid →
  acc_id a ≠ acc_id b →
  count_key (acc_id a, mid) (messages_of (snd s1)) = 1%nat
  ∧ s2 = (Ok n2, snd s1)
  ∧ count_key (acc_id a, mid) (messages_of (snd s3)) = 1%nat
  ∧ count_key (acc_id b, mid) (messages_of (snd s3)) = 1%nat
  ∧ ((acc_id b, mid) ∉ doc_key <$> emailmessage d → fst s3 = Ok (n3 + 1))
  ∧ NoDup (doc_key <$> messages_of (sync_runs lib runs w)).
Proof.
  intros s1 s2 s3 Hdb Hnd Hmid H1 H2 H3 Hab.
  destruct (ingest_available lib clk a f1 num1 raw1 n1 w d Hdb Hnd)
    as (d1 & Hdb1 & Hnd1 & Hin1 & Hmono1 & _ & _).
  rewrite (message_key_header _ _ _ _ _ mid H1 Hmid) in Hin1.
  fold s1 in Hdb1.
  destruct (ingest_available lib clk a f2 num2 raw2 n2 (snd s1) d1 Hdb1 Hnd1)
    as (d2 & Hdb2 & Hnd2 & Hin2 & Hmono2 & Hskip & _).
  rewrite (message_key_header _ _ _ _ _ mid H2 Hmid) in Hskip, Hin2.
  fold s2 in Hdb2, Hskip. specialize (Hskip Hin1).
  assert (d2 = d1) as -> by (rewrite Hskip in Hdb2; cbn in Hdb2; congruence).
  destruct (ingest_available lib clk b f3 num3 raw3 n3 (snd s2) d1 Hdb2 Hnd1)
    as (d3 & Hdb3 & Hnd3 & Hin3 & Hmono3 & _ & Hnew).
  rewrite (message_key_header _ _ _ _ _ mid H3 Hmid) in Hin3, Hnew.
  fold s3 in Hdb3, Hnew.
  assert (messages_of (snd s1) = emailmessage d1) as ->
    by (unfold messages_of; by rewrite Hdb1).
  assert (messages_of (snd s3) = emailmessage d3) as ->
    by (unfold messages_of; by rewrite Hdb3).
  split; [by apply count_key_unique|]. split; [done|].
  split; [apply count_key_unique; auto|].
  split; [by apply count_key_unique|]. split.
  - intros Hnb. apply Hnew. intros Hin. apply Hnb.
    pose proof (ingest_cases lib clk a f1 num1 raw1 n1 w) as Hc.
    cbn zeta in Hc. rewrite Hdb in Hc.
    destruct (Store.find_one_by_key _ _ _).
    + subst s1. rewrite Hc in Hdb1. cbn in Hdb1. congruence.
    + destruct Hc as (doc & n & Hi & Hk & _).
      subst s1. rewrite Hi in Hdb1. cbn in Hdb1. injection Hdb1 as <-.
      cbn in Hin. rewrite fmap_app in Hin.
      apply elem_of_app in Hin as [?|Hin]; [done|].
      cbn in Hin. apply list_elem_of_singleton in Hin.
      rewrite Hk in Hin. congruence.
  - apply (sync_runs_preserves lib
             (λ w, NoDup (doc_key <$> messages_of w))).
    + intros w1 w2 Hw. unfold messages_of. by rewrite Hw.
    + intros. apply ingest_keeps_unique_keys.
    + unfold messages_of. by rewrite Hdb.
Qed.

Lemma dedup_by_account_and_message_id_witness :
  count_key ("acc-1", "<a@x>") (messages_of (snd Scenario.step3)) = 1%nat
  ∧ count_key ("acc-2", "<a@x>") (messages_of (snd Scenario.step3)) = 1%nat
  ∧ Scenario.step2 = (Ok 1, snd Scenario.step1).
Proof.
  pose proof (dedup_by_account_and_message_id Scenario.lib Scenario.clk
                Scenario.two_runs Scenario.w0 (Database [] [])
                Scenario.alice Scenario.other "INBOX" "Archive" "INBOX"
                (Scenario.b "1") (Scenario.b "1") (Scenario.b "1")
                (Scenario.b "raw-alice") (Scenario.b "raw-alice")
                (Scenario.b "raw-alice") 0 1 0 "<a@x>") as H.
  cbn zeta in H.
  destruct H as (_ & H2 & H3 & H4 & _);
    [reflexivity | apply NoDup_nil_2 | discriminate | reflexivity
    | reflexivity | reflexivity | discriminate |].
  exact (conj H3 (conj H4 H2)).
Defined.

(** ** The date of a stored message *)

(** C6.  When the [Date] header of a message is missing, empty or refused
    by the date parser, parsing yields no date and raises nothing, and the
    record stored for the message carries the time read from the clock
    while the message is ingested. *)
Theorem date_falls_back_to_ingestion_time {St} (lib : Library) (clk : Clock)
    (acct : account) (folder : string) (num raw : bytes) (inserted : Z)
    (w : world St) (d : database) :
  let msg := message_from_bytes lib raw in
  let key := message_key lib msg num folder (acc_username acct) in
  (Msg.get msg "Date" = None
   ∨ Msg.get msg "Date" = Some ""
   ∨ ∃ h e, Msg.get msg "Date" = Some h
            ∧ parsedate_to_datetime lib h = Raise e) →
  w_db w = Some d →
  Store.find_one_by_key key (acc_id acct) (emailmessage d) = None →
  parse_date lib msg = None
  ∧ ∃ doc n,
      ingest lib clk acct folder num raw inserted w
      = (Ok (inserted + 1), with_new_message doc n d w)
      ∧ doc_key doc = (acc_id acct, key)
      ∧ Doc.date doc = utc_now clk (w_tick w).
Proof.
  intros msg key Hdate Hdb Hfind.
  assert (parse_date lib msg = None) as Hparse.
  { unfold parse_date. destruct Hdate as [->|[->|(h & e & -> & Hp)]];
      [done..|]. destruct h; [done|]. by rewrite Hp. }
  split; [done|].
  pose proof (ingest_cases lib clk acct folder num raw inserted w) as Hc.
  cbn zeta in Hc. fold msg key in Hc. rewrite Hdb, Hfind in Hc.
  destruct Hc as (doc & n & Hi & Hk & _ & _ & Hd).
  exists doc, n. rewrite Hparse in Hd. done.
Qed.

Lemma date_falls_back_to_ingestion_time_witness :
  ∃ doc n,
    ingest Scenario.lib Scenario.clk Scenario.alice "INBOX" (Scenario.b "2")
           (Scenario.b "raw-bob") 0 Scenario.w0
    = (Ok 1, with_new_message doc n (Database [] []) Scenario.w0)
    ∧ Doc.date doc = 1800000000.
Proof.
  destruct (date_falls_back_to_ingestion_time Scenario.lib Scenario.clk
              Scenario.alice "INBOX" (Scenario.b "2") (Scenario.b "raw-bob")
              0 Scenario.w0 (Database [] []))
    as (_ & doc & n & Hi & _ & Hd).
  - right; right. exists "tomorrow-ish", (PyErr "ValueError" "Invalid date value or format").
    split; reflexivity.
  - reflexivity.
  - reflexivity.
  - exists doc, n. split; [exact Hi | exact Hd].
Defined.

(** ** The [uid] field *)

(** C10.  Every record a run adds to the store has [uid] equal to [None];
    marking a message as interested leaves every [uid] as it is; hence a
    store in which no record has a [uid] stays so after any sequence of
    runs. *)
Theorem uid_is_never_set {St} (lib : Library) (clk : Clock) (srv : Imap St)
    (runs : list (run_spec St)) (acct : account)
    (folders : option (list string)) (days : Z) (email_id : string)
    (w : world St) :
  (∃ new,
      messages_of (snd (sync_account lib clk srv acct folders days w))
      = messages_of w ++ new
      ∧ Forall (λ d, Doc.uid d = None) new)
  ∧ Doc.uid <$> messages_of (snd (mark_interested lib email_id w))
    = Doc.uid <$> messages_of w
  ∧ (Forall (λ d, Doc.uid d = None) (messages_of w) →
     Forall (λ d, Doc.uid d = None) (messages_of (sync_runs lib runs w))).
Proof.
  split; [|split].
  - apply (sync_account_preserves lib clk srv
             (λ w', ∃ new, messages_of w' = messages_of w ++ new
                           ∧ Forall (λ d, Doc.uid d = None) new)).
    + intros w1 w2 Hw. unfold messages_of at 1 3. by rewrite Hw.
    + intros. apply ingest_adds_without_uid.
    + exists []. by rewrite (right_id_L [] (++)).
  - unfold mark_interested, db_emailmessage, messages_of.
    destruct (w_db w) as [d|] eqn:Hdb; cbn; [|by rewrite Hdb].
    destruct (ObjectId lib email_id) as [oid|e]; cbn; [|by rewrite Hdb].
    destruct (Store.find_one_by_id _ _); cbn; rewrite Hdb; [|done].
    apply update_category_uid.
  - apply (sync_runs_preserves lib
             (λ w, Forall (λ d, Doc.uid d = None) (messages_of w))).
    + intros w1 w2 Hw. unfold messages_of. by rewrite Hw.
    + intros. apply ingest_keeps_uid_none.
Qed.

Lemma uid_is_never_set_witness :
  Forall (λ d, Doc.uid d = None)
         (messages_of (sync_runs Scenario.lib Scenario.two_runs Scenario.w0)).
Proof.
  apply (uid_is_never_set Scenario.lib Scenario.clk Scenario.srv
           Scenario.two_runs Scenario.alice None 7
           "000000000000000000000000" Scenario.w0).
  apply Forall_nil_2.
Defined.

(** ** Running again on an unchanged mailbox *)

Section Replay.
Context {St : Type} (lib : Library) (clk : Clock) (srv : Imap St).
















End Replay.

Section ReplayAccount.
Context {St : Type} (lib : Library) (clk : Clock) (srv : Imap St).


End ReplayAccount.



(** ** Closing the session *)

Section Teardown.
Context {St : Type} (lib : Library) (clk : Clock) (srv : Imap St).

(** [ingest] talks to the store and the clock only. *)
Lemma ingest_frame acct folder num raw inserted (w w' : world St) r :
  ingest lib clk acct folder num raw inserted w = (r, w') →
  w_imap w' = w_imap w ∧ w_trace w' = w_trace w.
Proof.
  intros H.
  pose proof (ingest_cases lib clk acct folder num raw inserted w) as Hc.
  cbn zeta in Hc. destruct (w_db w) as [d|].
  - destruct (Store.find_one_by_key _ _ _).
    + rewrite Hc in H. by injection H as <- <-.
    + destruct Hc as (doc & n & Hi & _). rewrite Hi in H.
      by injection H as <- <-.
  - rewrite Hc in H. by injection H as <- <-.
Qed.

(** The loops under the outer [try] never call [logout]. *)
Lemma sync_loops_no_logout acct folders days (w w' : world St) r :
  sync_loops lib clk srv acct folders days w = (r, w') →
  ∃ tr, w_trace w' = w_trace w ++ tr ∧ CLogout ∉ tr.
Proof.
  apply (sync_loops_preserves lib clk srv
           (λ w', ∃ tr, w_trace w' = w_trace w ++ tr ∧ CLogout ∉ tr)).
  - intros c A step Hc w1 r1 w2 (tr & Htr & Hno). unfold call.
    destruct (step (w_imap w1)) as [s' r']. intros [= _ <-]. cbn.
    exists (tr ++ [c]). rewrite Htr, (assoc_L (++)). split; [done|].
    rewrite elem_of_app, list_elem_of_singleton.
    intros [Hin|Heq]; [by apply Hno | by apply Hc].
  - intros ????? w1 r1 w2 (tr & Htr & Hno) Hi.
    apply ingest_frame in Hi as [_ Ht]. exists tr. by rewrite Ht.
  - exists []. split; [by rewrite (right_id_L [] (++))|]. apply not_elem_of_nil.
Qed.

End Teardown.

(** C8.  Once [connect_imap] has returned, whatever the loops do -
    return a count or raise - [logout] is called exactly once, as the
    last call on the client, before the count is returned or the error is
    reported as HTTP 500; what the logout itself returns or raises has no
    part in the result. *)
Theorem logout_on_every_exit {St} (lib : Library) (clk : Clock)
    (srv : Imap St) (acct : account) (folders : option (list string))
    (days : Z) (w w1 : world St) :
  connect_imap srv (acc_host acct) (acc_port acct) (acc_username acct)
               (acc_password acct) (acc_use_ssl acct) w = (Ok tt, w1) →
  ∃ r w2 tr,
    sync_loops lib clk srv acct folders days w1 = (r, w2)
    ∧ w_trace w2 = w_trace w1 ++ tr
    ∧ (CLogout ∉ tr)
    ∧ sync_account lib clk srv acct folders days w
      = (match r with
         | Ok inserted => Ok inserted
         | Raise e => Raise (HTTPException 500 (err_str e))
         end,
         World (fst (imap_logout srv (w_imap w2))) (w_db w2) (w_tick w2)
               (w_trace w2 ++ [CLogout])).
Proof.
  intros Hconn.
  destruct (sync_loops lib clk srv acct folders days w1) as [r w2] eqn:El.
  destruct (sync_loops_no_logout lib clk srv _ _ _ _ _ _ El) as (tr & Htr & Hno).
  exists r, w2, tr. split; [done|]. split; [done|]. split; [done|].
  unfold sync_account. rewrite Hconn.
  unfold sync_try, bind. rewrite El.
  unfold try_, M_logout, call, ret.
  destruct r as [n|e]; cbn;
    by destruct (imap_logout srv (w_imap w2)) as [s3 lo].
Qed.

Lemma logout_on_every_exit_witness :
  let run :=
    sync_account Scenario.lib Scenario.clk Scenario.srv Scenario.alice
                 (Some ["INBOX"; "Down"]) 7 Scenario.w0 in
  fst run = Raise (HTTPException 500 "socket error: EOF")
  ∧ last (w_trace (snd run)) = Some CLogout
  ∧ snd (imap_logout Scenario.srv (Some "Down"))
    = Raise (PyErr "abort" "connection closed").
Proof.
  intros run.
  destruct (logout_on_every_exit Scenario.lib Scenario.clk Scenario.srv
              Scenario.alice (Some ["INBOX"; "Down"]) 7 Scenario.w0
              (World None (Some (Database [] [])) 0 [COpen; CLogin]))
    as (r & w2 & tr & El & _ & _ & Hrun); [reflexivity|].
  change (run = (match r with
                 | Ok inserted => Ok inserted
                 | Raise e => Raise (HTTPException 500 (err_str e))
                 end,
                 World (fst (imap_logout Scenario.srv (w_imap w2))) (w_db w2)
                       (w_tick w2) (w_trace w2 ++ [CLogout]))) in Hrun.
  clearbody run. subst run. cbn [fst snd w_trace].
  split; [|split; [apply last_snoc | reflexivity]].
  assert (fst (sync_loops Scenario.lib Scenario.clk Scenario.srv
                 Scenario.alice (Some ["INBOX"; "Down"]) 7
                 (World None (Some (Database [] [])) 0 [COpen; CLogin]))
          = Raise (PyErr "abort" "socket error: EOF")) as Hr
    by (vm_compute; reflexivity).
  rewrite El in Hr. cbn [fst] in Hr. rewrite Hr. reflexivity.
Defined.

(** ** Folder failures *)

Section FolderFailures.
Context {St : Type} (lib : Library) (clk : Clock) (srv : Imap St).

(** What the loop over folders guards against: a folder whose selection
    raises, or whose search is answered with a status other than OK, is
    passed over. *)
Lemma sync_folder_skipped acct since folder inserted (w : world St) :
  let selected := imap_select srv (w_imap w) folder in
  ((∃ e, snd selected = Raise e)
   ∨ (∃ typ0 typ data,
        snd selected = Ok typ0
        ∧ snd (imap_search srv (fst selected) ("(SINCE " +:+ since +:+ ")"))
          = Ok (typ, data)
        ∧ typ ≠ "OK")) →
  ∃ w', sync_folder lib clk srv acct since folder inserted w
        = (Ok inserted, w')
        ∧ w_db w' = w_db w.
Proof.
  intros selected H. unfold sync_folder, bind, try_, M_select, M_search, call.
  subst selected. destruct (imap_select srv (w_imap w) folder) as [s1 r1].
  cbn in H |- *. destruct H as [[e ->]|(typ0 & typ & data & -> & Hs & Hne)].
  - by eexists.
  - cbn. destruct (imap_search srv s1 _) as [s2 r2]. cbn in Hs. subst r2.
    rewrite bool_decide_eq_false_2 by done. by eexists.
Qed.

(** What it does not guard against: the status of a selection that
    returns is dropped, the search is made, and what the search raises
    leaves the loop. *)
Lemma sync_folder_search_raises acct since folder inserted (w : world St)
    s1 typ s2 e :
  imap_select srv (w_imap w) folder = (s1, Ok typ) →
  imap_search srv s1 ("(SINCE " +:+ since +:+ ")") = (s2, Raise e) →
  sync_folder lib clk srv acct since folder inserted w
  = (Raise e,
     World s2 (w_db w) (w_tick w)
           (w_trace w ++ [CSelect folder;
                          CSearch ("(SINCE " +:+ since +:+ ")")])).
Proof.
  intros Hsel Hsearch.
  unfold sync_folder, bind, try_, M_select, M_search, call.
  rewrite Hsel. cbn. rewrite Hsearch. by rewrite <- (assoc_L (++)).
Qed.

(** The loop over a list of folders is the loop over its first folders
    followed by the loop over the others. *)
Lemma sync_folders_app acct since before rest inserted (w : world St) :
  sync_folders lib clk srv acct since (before ++ rest) inserted w
  = bind (sync_folders lib clk srv acct since before inserted)
         (λ n, sync_folders lib clk srv acct since rest n) w.
Proof.
  revert inserted w. induction before as [|f before IH]; intros inserted w.
  { done. }
  cbn [app sync_folders]. unfold bind.
  destruct (sync_folder lib clk srv acct since f inserted w) as [[n|e] w1];
    [|done].
  rewrite IH. done.
Qed.

End FolderFailures.

(** C7 does not hold of the code.  The status that a selection returns
    is never looked at.  When the selection of a folder returns, be it
    with the status NO, and the search that follows raises - as the
    client of the standard library does while no folder is selected -
    the run ends there with HTTP 500 and the text of that error: the
    folders after it are not visited, the count reached in the folders
    before it is lost, and the last calls on the client are that
    selection, that search and the logout. *)
Theorem refused_selection_aborts_run {St} (lib : Library) (clk : Clock)
    (srv : Imap St) (acct : account) (folders : option (list string))
    (days : Z) (since folder typ : string) (before rest : list string)
    (n : Z) (e : pyerr) (s1 s2 : St) (w wc wb : world St) :
  connect_imap srv (acc_host acct) (acc_port acct) (acc_username acct)
               (acc_password acct) (acc_use_ssl acct) w = (Ok tt, wc) →
  since_date_of clk days = Ok since →
  target_folders folders = before ++ folder :: rest →
  sync_folders lib clk srv acct since before 0 wc = (Ok n, wb) →
  imap_select srv (w_imap wb) folder = (s1, Ok typ) →
  imap_search srv s1 ("(SINCE " +:+ since +:+ ")") = (s2, Raise e) →
  sync_account lib clk srv acct folders days w
  = (Raise (HTTPException 500 (err_str e)),
     World (fst (imap_logout srv s2)) (w_db wb) (w_tick wb)
           (w_trace wb ++ [CSelect folder;
                           CSearch ("(SINCE " +:+ since +:+ ")");
                           CLogout])).
Proof.
  intros Hconn Hsince Hfolders Hbefore Hsel Hsearch.
  unfold sync_account. rewrite Hconn.
  assert (sync_try lib clk srv acct folders days wc
          = (Raise e,
             World s2 (w_db wb) (w_tick wb)
                   (w_trace wb ++ [CSelect folder;
                                   CSearch ("(SINCE " +:+ since +:+ ")")])))
    as ->.
  { unfold sync_try, sync_loops, since_date.
    unfold bind at 1 2. rewrite Hsince, Hfolders, sync_folders_app.
    unfold bind at 1. rewrite Hbefore. cbn [sync_folders].
    unfold bind at 1.
    by rewrite (sync_folder_search_raises lib clk srv acct since folder n wb
                  s1 typ s2 e Hsel Hsearch). }
  unfold try_, M_logout, call. cbn.
  destruct (imap_logout srv s2) as [s3 lo]. cbn.
  by rewrite <- (assoc_L (++)).
Qed.

Lemma refused_selection_aborts_run_witness :
  imap_select Scenario.srv None "Missing" = (None, Ok "NO")
  ∧ sync_account Scenario.lib Scenario.clk Scenario.srv Scenario.alice
                 (Some ["Missing"; "INBOX"]) 7 Scenario.w0
    = (Raise (HTTPException 500
                ("command SEARCH illegal in state AUTH, "
                 +:+ "only allowed in states SELECTED")),
       World None (Some (Database [] [])) 0
             [COpen; CLogin; CSelect "Missing";
              CSearch "(SINCE 01-Jan-2024)"; CLogout]).
Proof.
  split; [reflexivity|].
  exact (refused_selection_aborts_run Scenario.lib Scenario.clk Scenario.srv
           Scenario.alice (Some ["Missing"; "INBOX"]) 7 "01-Jan-2024"
           "Missing" "NO" [] ["INBOX"] 0
           (PyErr "error" ("command SEARCH illegal in state AUTH, "
                           +:+ "only allowed in states SELECTED"))
           None None Scenario.w0
           (World None (Some (Database [] [])) 0 [COpen; CLogin])
           (World None (Some (Database [] [])) 0 [COpen; CLogin])
           eq_refl eq_refl eq_refl eq_refl eq_refl eq_refl).
Defined.

(** The same mailbox when the folder that cannot be had is left out, and
    when the selection fails by raising: the three messages of the inbox
    are stored. *)
Example raising_selection_is_skipped :
  fst (sync_account Scenario.lib Scenario.clk Scenario.srv Scenario.alice
                    (Some ["INBOX"]) 7 Scenario.w0) = Ok 3
  ∧ fst (sync_account Scenario.lib Scenario.clk Scenario.srv Scenario.alice
                      (Some ["Bad"; "INBOX"]) 7 Scenario.w0) = Ok 3.
Proof. split; vm_compute; reflexivity. Qed.

(** ** Reply suggestion *)

Section SuggestProperties.

Lemma simple_score_nonneg query doc : 0 ≤ Suggest.simple_score query doc.
Proof. unfold Suggest.simple_score. lia. Qed.

Lemma best_of_snoc query docs d :
  Suggest.best_of query (docs ++ [d])
  = Suggest.best_step query (Suggest.best_of query docs) d.
Proof. unfold Suggest.best_of. by rewrite fold_left_app. Qed.

(** The loop keeps the first document among those of highest score. *)
Lemma best_of_first_maximum query (docs : list agenda_doc) :
  let score d := Suggest.simple_score query (Suggest.doc_text d) in
  (docs = [] ∧ Suggest.best_of query docs = (None, -1))
  ∨ ∃ i best,
      docs !! i = Some best
      ∧ Suggest.best_of query docs = (Some best, score best)
      ∧ (∀ j d, docs !! j = Some d → score d ≤ score best)
      ∧ (∀ j d, (j < i)%nat → docs !! j = Some d → score d < score best).
Proof.
  intros score. induction docs as [|x docs IH] using rev_ind; [by left|].
  right. rewrite best_of_snoc.
  destruct IH as [[-> E]|(i & best & Hi & E & Hmax & Hfirst)].
  - rewrite E. unfold Suggest.best_step. fold (score x).
    pose proof (simple_score_nonneg query (Suggest.doc_text x)) as Hx.
    fold (score x) in Hx.
    destruct (Z.ltb_spec (-1) (score x)) as [_|?]; [|lia].
    exists 0%nat, x. split; [done|]. split; [done|]. split.
    + intros [|j] d; [|done]. intros [= <-]. lia.
    + intros j d ?. lia.
  - rewrite E. unfold Suggest.best_step. fold (score x).
    destruct (Z.ltb_spec (score best) (score x)) as [Hlt|Hge].
    + exists (length docs), x. split.
      { by rewrite lookup_app_r, Nat.sub_diag. }
      split; [done|]. split.
      * intros j d [Hd|[_ Hd]]%lookup_app_Some.
        -- specialize (Hmax _ _ Hd). lia.
        -- destruct (j - length docs)%nat; [|done].
           injection Hd as <-. lia.
      * intros j d Hj Hd. rewrite lookup_app_l in Hd by done.
        specialize (Hmax _ _ Hd). lia.
    + exists i, best. split.
      { rewrite lookup_app_l; [done|]. by eapply lookup_lt_Some. }
      split; [done|]. split.
      * intros j d [Hd|[_ Hd]]%lookup_app_Some.
        -- by eapply Hmax.
        -- destruct (j - length docs)%nat; [|done].
           by injection Hd as <-.
      * intros j d Hj Hd. apply (Hfirst j); [done|].
        rewrite lookup_app_l in Hd; [done|].
        apply lookup_lt_Some in Hi. lia.
Qed.

End SuggestProperties.

(** C9.  For a stored message, named by its identifier, [suggest_reply]
    scores every reference
    document by the number of words shared between the lower-cased word
    set of the message's subject and body and that of the document's
    title and content, and builds the reply from a document of highest
    score, the first one in store order among those; with no reference
    document the reply is the greeting alone. *)
Theorem suggest_reply_selects_first_best (lib : Library) (d : database)
    (email_id : string) (oid : nat) (em : Doc.t) :
  let score doc :=
    Suggest.simple_score (Suggest.query_of em) (Suggest.doc_text doc) in
  ObjectId lib email_id = Ok oid →
  Store.find_one_by_id oid (emailmessage d) = Some em →
  (agendadoc d = [] →
   Suggest.suggest_reply lib (Some d) email_id = Ok Suggest.greeting)
  ∧ (agendadoc d ≠ [] →
     ∃ i best,
       agendadoc d !! i = Some best
       ∧ (∀ j doc, agendadoc d !! j = Some doc → score doc ≤ score best)
       ∧ (∀ j doc, (j < i)%nat → agendadoc d !! j = Some doc →
                   score doc < score best)
       ∧ Suggest.suggest_reply lib (Some d) email_id
         = Ok (Suggest.compose em (Some best))).
Proof.
  intros score Hid Hem. unfold Suggest.suggest_reply. rewrite Hid, Hem.
  split.
  - intros ->. cbn [Suggest.best_of fold_left fst].
    unfold Suggest.compose. change (str_in "cal.com" "") with false.
    rewrite andb_false_r. reflexivity.
  - intros Hne.
    destruct (best_of_first_maximum (Suggest.query_of em) (agendadoc d))
      as [[? _]|(i & best & Hi & E & Hmax & Hfirst)]; [done|].
    exists i, best. rewrite E. done.
Qed.

Lemma suggest_reply_selects_first_best_witness :
  ∃ best,
    Scenario.doc_pricing = best
    ∧ Suggest.suggest_reply Scenario.lib (Some Scenario.db_suggest)
                            "000000000000000000000000"
      = Ok (Suggest.compose Scenario.em0 (Some best)).
Proof.
  destruct (suggest_reply_selects_first_best Scenario.lib Scenario.db_suggest
              "000000000000000000000000" 0 Scenario.em0)
    as [_ H]; [reflexivity | reflexivity |].
  destruct H as (i & best & Hi & Hmax & _ & E); [discriminate|].
  exists best. split; [|exact E].
  assert (Suggest.simple_score (Suggest.query_of Scenario.em0)
            (Suggest.doc_text Scenario.doc_pricing) = 4) as Hp
    by (vm_compute; reflexivity).
  assert (Suggest.simple_score (Suggest.query_of Scenario.em0)
            (Suggest.doc_text Scenario.doc_support) = 1) as Hs
    by (vm_compute; reflexivity).
  destruct i as [|[|i]].
  - change (Some Scenario.doc_support = Some best) in Hi.
    injection Hi as <-.
    specialize (Hmax 1%nat Scenario.doc_pricing eq_refl).
    cbv zeta in Hmax. rewrite Hp, Hs in Hmax. lia.
  - change (Some Scenario.doc_pricing = Some best) in Hi.
    injection Hi as <-. reflexivity.
  - change (@None agenda_doc = Some best) in Hi. discriminate Hi.
Defined.

(* ===================================================================== *)
(** * Further properties                                                  *)
(* ===================================================================== *)

(** ** The classifier *)

Section ClassifierFurther.

Lemma lower_char_idem (c : ascii) : lower_char (lower_char c) = lower_char c.
Proof. by destruct c as [[] [] [] [] [] [] [] []]. Qed.

Lemma lower_idem (s : string) : lower (lower s) = lower s.
Proof.
  induction s as [|c s IH]; [done|]. cbn [lower].
  by rewrite lower_char_idem, IH.
Qed.

Lemma or_empty_lower (o : option string) :
  or_empty (lower <$> o) = lower (or_empty o).
Proof. by destruct o. Qed.

Lemma prefix_split (k t : string) :
  String.prefix k t = true → ∃ rest, t = k +:+ rest.
Proof.
  revert t. induction k as [|a k IH]; intros t H; [by exists t|].
  destruct t as [|c t]; [done|]. simpl in H.
  destruct (ascii_dec a c) as [->|]; [|done].
  destruct (IH _ H) as [rest ->]. by exists rest.
Qed.

Lemma str_in_split (k t : string) :
  str_in k t = true → ∃ before after, t = before +:+ k +:+ after.
Proof.
  induction t as [|c t IH]; cbn [str_in]; intros H.
  - rewrite orb_false_r in H. apply prefix_split in H as [rest ->].
    by exists "", rest.
  - apply orb_true_iff in H as [H|H].
    + apply prefix_split in H as [rest ->]. by exists "", rest.
    + destruct (IH H) as (before & after & ->).
      by exists (String c before), after.
Qed.

Lemma str_in_refl (k : string) : str_in k k = true.
Proof.
  apply str_in_prefix. induction k as [|a k IH]; [done|]. simpl.
  by destruct (ascii_dec a a).
Qed.

(** A substring of a substring is a substring. *)
Lemma str_in_trans (k1 k2 t : string) :
  str_in k1 k2 = true → str_in k2 t = true → str_in k1 t = true.
Proof.
  intros H12 H2. apply str_in_split in H2 as (before & after & ->).
  apply str_in_app_r, str_in_app_l, H12.
Qed.

End ClassifierFurther.

(** X1.  The classifier ignores letter case: lower-casing subject and
    body beforehand does not change the label. *)
Theorem categorize_email_ignores_case (subject body : option string) :
  categorize_email (lower <$> subject) (lower <$> body)
  = categorize_email subject body.
Proof.
  assert (email_text (lower <$> subject) (lower <$> body)
          = email_text subject body) as E.
  { unfold email_text. rewrite !or_empty_lower, !lower_app, !lower_idem.
    done. }
  unfold categorize_email. by rewrite E.
Qed.

(** X2.  The classifier answers with one of the five labels the schema
    lists for [ai_category], or with nothing. *)
Theorem categorize_email_labels (subject body : option string) :
  categorize_email subject body
  ∈ [None; Some "Out of Office"; Some "Not Interested";
     Some "Meeting Booked"; Some "Interested"; Some "Spam"].
Proof.
  unfold categorize_email.
  repeat match goal with
         | |- context [if ?b then _ else _] => destruct b
         end;
    rewrite !elem_of_cons; tauto.
Qed.

(** X3.  One term can satisfy both halves of the meeting rule: a text
    with "schedule" or with "book a time", and with no term of rules 1
    and 2, is "Meeting Booked" without any further scheduling word. *)
Theorem meeting_booked_by_one_term (subject body : option string) :
  any_in out_of_office_terms (email_text subject body) = false →
  any_in not_interested_terms (email_text subject body) = false →
  str_in "schedule" (email_text subject body) = true
  ∨ str_in "book a time" (email_text subject body) = true →
  categorize_email subject body = Some "Meeting Booked".
Proof.
  intros H1 H2 [H|H]; apply categorize_meeting_booked; try done.
  - apply (any_in_intro _ "schedule"); [simpl; tauto | done].
  - apply (any_in_intro _ "schedule"); [simpl; tauto | done].
  - apply (any_in_intro _ "book a time"); [simpl; tauto | done].
  - apply (any_in_intro _ "book"); [simpl; tauto|].
    by apply (str_in_trans _ "book a time").
Qed.

Lemma meeting_booked_by_one_term_witness :
  categorize_email (Some "Next steps") (Some "Can we schedule this?")
  = Some "Meeting Booked".
Proof.
  apply (meeting_booked_by_one_term (Some "Next steps")
           (Some "Can we schedule this?"));
    [reflexivity | reflexivity | left; reflexivity].
Defined.

(** ** The decoder *)

(** X4.  The attachment disposition is looked at for the parts of a
    multipart message only.  A single-part [text/plain] message that is
    marked as an attachment still gives its payload as the body text,
    while the same part inside a multipart message gives no body. *)
Theorem attachment_checked_in_multipart_only (lib : Library)
    (hs hm : list (string * string)) (cm : string) (x : byte)
    (payload : bytes) :
  let part := Leaf hs "text/plain" (Some (x :: payload)) in
  str_in "attachment" (disposition part) = true →
  extract_body lib part
  = (Some (safe_decode lib (VBytes (x :: payload))), None)
  ∧ extract_body lib (Multi hm cm [part]) = (None, None).
Proof.
  intros part Hatt. subst part. split; [done|].
  unfold extract_body. cbn [Msg.is_multipart Msg.walk flat_map app fold_left].
  assert (extract_part lib (None, None)
            (Multi hm cm [Leaf hs "text/plain" (Some (x :: payload))])
          = (None, None)) as ->.
  { unfold extract_part. cbn [Msg.get_payload_decoded].
    by repeat match goal with
              | |- context [if ?b then _ else _] => destruct b
              end. }
  unfold extract_part. rewrite Hatt. cbn [negb Msg.get_content_type].
  rewrite andb_false_r. cbn. done.
Qed.

Lemma attachment_checked_in_multipart_only_witness :
  extract_body Scenario.lib Cases.attached = (Some "meeting notes", None)
  ∧ extract_body Scenario.lib (Multi [] "multipart/mixed" [Cases.attached])
    = (None, None).
Proof.
  exact (attachment_checked_in_multipart_only Scenario.lib
           [("Content-Type", "text/plain");
            ("Content-Disposition", "attachment; filename=notes.txt")]
           [] "multipart/mixed" "m"%byte (Scenario.b "eeting notes")
           eq_refl).
Defined.

(** ** The run: failures before the loops *)

(** X5.  When the connection or the login fails, the run is reported as
    HTTP 400 with the failure text; the store is untouched, and the only
    client calls are the opening and possibly the login: in particular no
    logout is attempted. *)
Theorem login_failure_reports_400 {St} (lib : Library) (clk : Clock)
    (srv : Imap St) (acct : account) (folders : option (list string))
    (days : Z) (w w1 : world St) (e : pyerr) :
  connect_imap srv (acc_host acct) (acc_port acct) (acc_username acct)
               (acc_password acct) (acc_use_ssl acct) w = (Raise e, w1) →
  sync_account lib clk srv acct folders days w
  = (Raise (HTTPException 400 ("IMAP login failed: " +:+ err_str e)), w1)
  ∧ w_db w1 = w_db w
  ∧ (w_trace w1 = w_trace w ++ [COpen]
     ∨ w_trace w1 = w_trace w ++ [COpen; CLogin]).
Proof.
  intros H. split; [unfold sync_account; by rewrite H|].
  unfold connect_imap, bind, M_open, M_login, call, ret in H.
  destruct (imap_open srv (w_imap w) _ _ _) as [s1 [[]|e1]]; cbn in H.
  - destruct (imap_login srv s1 _ _) as [s2 [[]|e2]]; cbn in H; [done|].
    injection H as _ <-. cbn. split; [done|]. right.
    by rewrite <- (assoc_L (++)).
  - injection H as _ <-. cbn. split; [done|]. by left.
Qed.

Lemma login_failure_reports_400_witness :
  sync_account Scenario.lib Scenario.clk Scenario.srv Cases.intruder None 30
               Scenario.w0
  = (Raise (HTTPException 400 "IMAP login failed: LOGIN failed"),
     World None (Some (Database [] [])) 0 [COpen; CLogin]).
Proof.
  exact (proj1 (login_failure_reports_400 Scenario.lib Scenario.clk
                  Scenario.srv Cases.intruder None 30 Scenario.w0
                  (World None (Some (Database [] [])) 0 [COpen; CLogin])
                  (PyErr "error" "LOGIN failed") eq_refl)).
Defined.

(** X6.  When the cut-off date cannot be computed (a day window out of
    the range of dates), a connected run makes no further client call
    but the logout, leaves the store untouched and is reported as
    HTTP 500 with the text of the failure. *)
Theorem cutoff_failure_reports_500 {St} (lib : Library) (clk : Clock)
    (srv : Imap St) (acct : account) (folders : option (list string))
    (days : Z) (w w1 : world St) (e : pyerr) :
  connect_imap srv (acc_host acct) (acc_port acct) (acc_username acct)
               (acc_password acct) (acc_use_ssl acct) w = (Ok tt, w1) →
  since_date_of clk days = Raise e →
  sync_account lib clk srv acct folders days w
  = (Raise (HTTPException 500 (err_str e)),
     World (fst (imap_logout srv (w_imap w1))) (w_db w1) (w_tick w1)
           (w_trace w1 ++ [CLogout])).
Proof.
  intros Hconn Hsince. unfold sync_account. rewrite Hconn.
  unfold sync_try, sync_loops, bind, since_date. rewrite Hsince.
  unfold try_, M_logout, call.
  by destruct (imap_logout srv (w_imap w1)) as [s3 lo].
Qed.

Lemma cutoff_failure_reports_500_witness :
  sync_account Scenario.lib Scenario.clk Scenario.srv Scenario.alice None
               800000 Scenario.w0
  = (Raise (HTTPException 500 "date value out of range"),
     World None (Some (Database [] [])) 0 [COpen; CLogin; CLogout]).
Proof.
  exact (cutoff_failure_reports_500 Scenario.lib Scenario.clk Scenario.srv
           Scenario.alice None 800000 Scenario.w0 Cases.connected
           (PyErr "OverflowError" "date value out of range")
           eq_refl eq_refl).
Defined.

(** ** The run: what it adds *)

Section Adds.
Context {St : Type} (lib : Library) (clk : Clock) (srv : Imap St).

Lemma quiet_messages {A} (m : M St A) (w w' : world St) r :
  quiet m → m w = (r, w') → messages_of w' = messages_of w.
Proof. intros Hq H. unfold messages_of. by rewrite (Hq _ _ _ H). Qed.

Lemma quiet_call c {A} (step : St → St * outcome pyerr A) :
  quiet (call c step).
Proof.
  intros w r w'. unfold call. destruct (step (w_imap w)).
  by intros [= _ <-].
Qed.

Lemma quiet_try {A} (m : M St A) : quiet m → quiet (try_ m).
Proof.
  intros Hq w r w'. unfold try_. destruct (m w) as [r1 w1] eqn:E.
  intros [= _ <-]. by eapply Hq.
Qed.

Lemma quiet_bind {A B} (m : M St A) (k : A → M St B) :
  quiet m → (∀ a, quiet (k a)) → quiet (bind m k).
Proof.
  intros Hm Hk w r w'. unfold bind. destruct (m w) as [[a|e] w1] eqn:E.
  - intros H. rewrite (Hk _ _ _ _ H). by eapply Hm.
  - intros [= _ <-]. by eapply Hm.
Qed.

Lemma adds_ret P inserted : adds (St := St) P inserted (ret inserted).
Proof.
  intros w r w' [= <- <-]. exists []. rewrite (right_id_L [] (++)).
  split; [done|]. split; [done|]. intros n [= <-]. cbn. lia.
Qed.

Lemma adds_weaken (P Q : Doc.t → Prop) inserted (m : M St Z) :
  (∀ d, P d → Q d) → adds P inserted m → adds Q inserted m.
Proof.
  intros HPQ Hm w r w' H. destruct (Hm _ _ _ H) as (new & E & HP & Hn).
  exists new. split; [done|]. split; [|done].
  eapply Forall_impl; [exact HP | exact HPQ].
Qed.

Lemma adds_bind_quiet P inserted {A} (m : M St A) (k : A → M St Z) :
  quiet m → (∀ a, adds P inserted (k a)) → adds P inserted (bind m k).
Proof.
  intros Hm Hk w r w'. unfold bind. destruct (m w) as [[a|e] w1] eqn:E.
  - intros H. destruct (Hk _ _ _ _ H) as (new & E' & HP & Hn).
    exists new. by rewrite <- (quiet_messages _ _ _ _ Hm E).
  - intros [= <- <-]. exists []. rewrite (right_id_L [] (++)).
    split; [by eapply quiet_messages|]. done.
Qed.

Lemma adds_bind P inserted (m : M St Z) (k : Z → M St Z) :
  adds P inserted m → (∀ n, adds P n (k n)) → adds P inserted (bind m k).
Proof.
  intros Hm Hk w r w'. unfold bind. destruct (m w) as [[n1|e] w1] eqn:E.
  - intros H. destruct (Hm _ _ _ E) as (new1 & E1 & HP1 & Hn1).
    destruct (Hk _ _ _ _ H) as (new2 & E2 & HP2 & Hn2).
    exists (new1 ++ new2). rewrite E2, E1, (assoc_L (++)).
    split; [done|]. split; [by apply Forall_app|].
    intros n Hr. rewrite (Hn2 _ Hr), (Hn1 _ eq_refl), length_app. lia.
  - intros [= <- <-]. destruct (Hm _ _ _ E) as (new1 & E1 & HP1 & _).
    exists new1. done.
Qed.

Lemma adds_ingest acct folder num raw inserted :
  adds (St := St)
       (λ d, Doc.account_id d = acc_id acct ∧ Doc.folder d = folder)
       inserted (ingest lib clk acct folder num raw inserted).
Proof.
  intros w r w' H.
  pose proof (ingest_cases lib clk acct folder num raw inserted w) as Hc.
  cbn zeta in Hc. unfold messages_of.
  destruct (w_db w) as [d|] eqn:Hdb.
  - destruct (Store.find_one_by_key _ _ _).
    + rewrite Hc in H. injection H as <- <-. rewrite Hdb. exists [].
      rewrite (right_id_L [] (++)). split; [done|]. split; [done|].
      intros n [= <-]. cbn. lia.
    + destruct Hc as (doc & k & Hi & Hk & _ & Hf & _).
      rewrite Hi in H. injection H as <- <-. cbn. exists [doc].
      split; [done|]. split.
      * apply Forall_singleton. split; [|done].
        unfold doc_key in Hk. congruence.
      * intros n [= <-]. cbn. lia.
  - rewrite Hc in H. injection H as <- <-. rewrite Hdb. by exists [].
Qed.

Lemma adds_sync_message acct folder num inserted :
  adds (λ d, Doc.account_id d = acc_id acct ∧ Doc.folder d = folder)
       inserted (sync_message lib clk srv acct folder num inserted).
Proof.
  unfold sync_message. apply adds_bind_quiet; [apply quiet_call|].
  intros [typ msg_data]. destruct (negb _ || _); [apply adds_ret|].
  destruct (first_tuple msg_data) as [[|x raw]|];
    first [apply adds_ret | apply adds_ingest].
Qed.

Lemma adds_sync_messages acct folder nums inserted :
  adds (λ d, Doc.account_id d = acc_id acct ∧ Doc.folder d = folder)
       inserted (sync_messages lib clk srv acct folder nums inserted).
Proof.
  revert inserted. induction nums as [|num nums IH]; intros inserted.
  - apply adds_ret.
  - cbn [sync_messages]. apply adds_bind; [|done].
    apply adds_sync_message.
Qed.

Lemma adds_sync_folder acct since folder inserted :
  adds (λ d, Doc.account_id d = acc_id acct ∧ Doc.folder d = folder)
       inserted (sync_folder lib clk srv acct since folder inserted).
Proof.
  unfold sync_folder. apply adds_bind_quiet.
  - apply quiet_try, quiet_call.
  - intros [_|_]; [|apply adds_ret].
    apply adds_bind_quiet; [apply quiet_call|].
    intros [typ data]. destruct (negb _); [apply adds_ret|].
    apply adds_sync_messages.
Qed.

Lemma adds_sync_folders acct since folders inserted :
  adds (λ d, Doc.account_id d = acc_id acct ∧ Doc.folder d ∈ folders)
       inserted (sync_folders lib clk srv acct since folders inserted).
Proof.
  revert inserted. induction folders as [|f folders IH]; intros inserted.
  - apply adds_ret.
  - cbn [sync_folders]. apply adds_bind.
    + eapply adds_weaken; [|apply adds_sync_folder].
      intros d [? ->]. split; [done|]. apply elem_of_cons. by left.
    + intros n. eapply adds_weaken; [|apply IH].
      intros d [? ?]. split; [done|]. apply elem_of_cons. by right.
Qed.

Lemma adds_sync_try acct folders days :
  adds (λ d, Doc.account_id d = acc_id acct
             ∧ Doc.folder d ∈ target_folders folders)
       0 (sync_try lib clk srv acct folders days).
Proof.
  unfold sync_try, sync_loops. apply adds_bind.
  - apply adds_bind_quiet.
    + intros w r w'. unfold since_date. by intros [= _ <-].
    + intros since. apply adds_sync_folders.
  - intros n. apply adds_bind_quiet; [apply quiet_try, quiet_call|].
    intros _. apply adds_ret.
Qed.

(** What a whole run adds. *)
Lemma sync_account_adds acct folders days (w : world St) :
  let run := sync_account lib clk srv acct folders days w in
  ∃ new, messages_of (snd run) = messages_of w ++ new
         ∧ Forall (λ d, Doc.account_id d = acc_id acct
                        ∧ Doc.folder d ∈ target_folders folders) new
         ∧ ∀ n, fst run = Ok n → n = Z.of_nat (length new).
Proof.
  cbn zeta. unfold sync_account.
  destruct (connect_imap _ _ _ _ _ _ w) as [[[]|e] w1] eqn:Hconn.
  - assert (messages_of w1 = messages_of w) as Hm1.
    { eapply quiet_messages; [|exact Hconn]. unfold connect_imap.
      apply quiet_bind; [apply quiet_call|]. intros _.
      apply quiet_bind; [apply quiet_call|]. intros _.
      intros ? ? ?. by intros [= _ <-]. }
    destruct (sync_try _ _ _ _ _ _ w1) as [[n|e] w2] eqn:Htry;
      destruct (adds_sync_try _ _ _ _ _ _ Htry) as (new & E & HP & Hn).
    + cbn. exists new. rewrite E, Hm1. split; [done|]. split; [done|].
      intros n' [= <-]. rewrite (Hn n eq_refl). lia.
    + unfold try_, M_logout, call.
      destruct (imap_logout srv (w_imap w2)) as [s3 lo]. cbn.
      exists new. unfold messages_of in *. cbn. rewrite E, Hm1. done.
  - cbn. exists []. rewrite (right_id_L [] (++)). split; [|done].
    eapply quiet_messages; [|exact Hconn]. unfold connect_imap.
    apply quiet_bind; [apply quiet_call|]. intros _.
    apply quiet_bind; [apply quiet_call|]. intros _.
    intros ? ? ?. by intros [= _ <-].
Qed.

End Adds.

(** X7.  A run never changes or removes a stored record: the store after
    the run is the store before it followed by the new records, and the
    count a run returns is the number of records it added. *)
Theorem inserted_is_number_of_new_records {St} (lib : Library) (clk : Clock)
    (srv : Imap St) (acct : account) (folders : option (list string))
    (days : Z) (w : world St) :
  let run := sync_account lib clk srv acct folders days w in
  ∃ new, messages_of (snd run) = messages_of w ++ new
         ∧ ∀ n, fst run = Ok n → n = Z.of_nat (length new).
Proof.
  destruct (sync_account_adds lib clk srv acct folders days w)
    as (new & E & _ & Hn).
  by exists new.
Qed.

Lemma inserted_is_number_of_new_records_witness :
  let run :=
    sync_account Scenario.lib Scenario.clk Scenario.srv Scenario.alice
                 (Some ["INBOX"; "Archive"]) 7 Scenario.w0 in
  ∃ new, messages_of (snd run) = messages_of Scenario.w0 ++ new
         ∧ 3 = Z.of_nat (length new).
Proof.
  intros run.
  destruct (inserted_is_number_of_new_records Scenario.lib Scenario.clk
              Scenario.srv Scenario.alice (Some ["INBOX"; "Archive"]) 7
              Scenario.w0) as (new & E & Hn).
  exists new. split; [exact E|]. apply Hn. vm_compute. reflexivity.
Defined.

(** X8.  Every record a run adds carries the identifier of the account
    the run was started for and a folder among those the run was asked to
    visit (the inbox when none was given). *)
Theorem new_records_belong_to_account_and_folders {St} (lib : Library)
    (clk : Clock) (srv : Imap St) (acct : account)
    (folders : option (list string)) (days : Z) (w : world St) :
  let run := sync_account lib clk srv acct folders days w in
  ∃ new, messages_of (snd run) = messages_of w ++ new
         ∧ Forall (λ d, Doc.account_id d = acc_id acct
                        ∧ Doc.folder d ∈ target_folders folders) new.
Proof.
  destruct (sync_account_adds lib clk srv acct folders days w)
    as (new & E & HP & _).
  by exists new.
Qed.

(** ** The run: one message *)

Section OneMessage.
Context {St : Type} (lib : Library) (clk : Clock) (srv : Imap St).

Lemma fetched_fetches (nums : list bytes) : fetched (CFetch <$> nums) = nums.
Proof.
  unfold fetched. induction nums as [|n nums IH]; [done|]. cbn. by f_equal.
Qed.

Lemma ingest_count acct folder num raw inserted (w w' : world St) n :
  ingest lib clk acct folder num raw inserted w = (Ok n, w') →
  inserted ≤ n ≤ inserted + 1.
Proof.
  intros H.
  pose proof (ingest_cases lib clk acct folder num raw inserted w) as Hc.
  cbn zeta in Hc. destruct (w_db w) as [d|].
  - destruct (Store.find_one_by_key _ _ _).
    + rewrite Hc in H. injection H as <- _. lia.
    + destruct Hc as (doc & k & Hi & _). rewrite Hi in H.
      injection H as <- _. lia.
  - rewrite Hc in H. done.
Qed.

(** One turn of the loop makes one client call, the fetch. *)
Lemma sync_message_trace acct folder num inserted (w w' : world St) r :
  sync_message lib clk srv acct folder num inserted w = (r, w') →
  w_trace w' = w_trace w ++ [CFetch num]
  ∧ ∀ n, r = Ok n → inserted ≤ n ≤ inserted + 1.
Proof.
  unfold sync_message, bind, M_fetch, call.
  destruct (imap_fetch srv (w_imap w) num _) as [s1 [[typ msg_data]|e]].
  - destruct (negb _ || _).
    + intros [= <- <-]. split; [done|]. intros n [= <-]. lia.
    + destruct (first_tuple msg_data) as [[|x raw]|].
      * intros [= <- <-]. split; [done|]. intros n [= <-]. lia.
      * intros H. destruct (ingest_frame lib clk _ _ _ _ _ _ _ _ H) as [_ Ht].
        rewrite Ht. split; [done|].
        intros n ->. by apply ingest_count in H.
      * intros [= <- <-]. split; [done|]. intros n [= <-]. lia.
  - intros [= <- <-]. split; [done|]. intros n [=].
Qed.

Lemma fetches_sync_messages acct folder nums inserted :
  fetches_within nums inserted
                 (sync_messages lib clk srv acct folder nums inserted).
Proof.
  revert inserted. induction nums as [|num nums IH]; intros inserted.
  - intros w r w' [= <- <-]. exists []. cbn.
    rewrite (right_id_L [] (++)). split; [done|]. split; [done|].
    intros n [= <-]. lia.
  - intros w r w'. cbn [sync_messages]. unfold bind.
    destruct (sync_message _ _ _ _ _ _ _ w) as [[n1|e] w1] eqn:E;
      destruct (sync_message_trace _ _ _ _ _ _ _ E) as [Ht1 Hn1].
    + intros H. destruct (IH _ _ _ _ H) as (done2 & Ht2 & Hp2 & Hn2).
      exists (num :: done2). rewrite Ht2, Ht1. cbn.
      rewrite <- (assoc_L (++)). split; [done|].
      split; [by apply prefix_cons|].
      intros n Hr. specialize (Hn2 _ Hr). specialize (Hn1 _ eq_refl).
      cbn [length]. lia.
    + intros [= <- <-]. exists [num]. split; [done|]. split; [|done].
      by exists nums.
Qed.

End OneMessage.

(** X9.  The cap on a folder: however long the search result, one visit
    of a folder fetches at most 1000 messages, and so raises the count by
    at most 1000; besides the fetches it makes one select and at most one
    search. *)
Theorem folder_visit_is_capped {St} (lib : Library) (clk : Clock)
    (srv : Imap St) (acct : account) (since folder : string) (inserted : Z)
    (w : world St) :
  let visit := sync_folder lib clk srv acct since folder inserted w in
  ∃ tr, w_trace (snd visit) = w_trace w ++ tr
        ∧ (length (fetched tr) ≤ 1000)%nat
        ∧ (length tr ≤ 2 + length (fetched tr))%nat
        ∧ ∀ n, fst visit = Ok n → inserted ≤ n ≤ inserted + 1000.
Proof.
  cbn zeta. unfold sync_folder, bind, try_, M_select, M_search, call.
  destruct (imap_select srv (w_imap w) folder) as [s1 [typ0|e0]]; cbn.
  - destruct (imap_search srv s1 _) as [s2 [[typ data]|e]]; cbn.
    + destruct (negb _); cbn.
      * eexists. rewrite <- (assoc_L (++)). split; [done|]. cbn.
        split; [lia|]. split; [lia|]. intros n [= <-]. lia.
      * match goal with
        | |- context [sync_messages ?l ?c ?s ?a ?f ?ns ?i ?w0] =>
            destruct (sync_messages l c s a f ns i w0) as [r w'] eqn:E
        end.
        destruct (fetches_sync_messages _ _ _ _ _ _ _ _ _ _ E)
          as (done & Ht & Hp & Hn).
        cbn in Ht |- *.
        assert (length done ≤ 1000)%nat as Hlen.
        { apply prefix_length in Hp. unfold last_n in Hp.
          rewrite length_drop in Hp. lia. }
        exists ([CSelect folder; CSearch ("(SINCE " +:+ since +:+ ")")]
                ++ (CFetch <$> done)).
        rewrite Ht, <- !(assoc_L (++)). split; [done|].
        change (fetched ([CSelect folder;
                          CSearch ("(SINCE " +:+ since +:+ ")")]
                         ++ (CFetch <$> done)))
          with (fetched (CFetch <$> done)).
        rewrite fetched_fetches, length_app, length_fmap. cbn [length].
        split; [done|]. split; [lia|].
        intros n Hr. specialize (Hn _ Hr). lia.
    + eexists. rewrite <- (assoc_L (++)). split; [done|]. cbn.
      split; [lia|]. split; [lia|]. intros n [=].
  - eexists. split; [done|]. cbn. split; [lia|]. split; [lia|].
    intros n [= <-]. lia.
Qed.

Lemma folder_visit_is_capped_witness :
  let visit :=
    sync_folder Scenario.lib Scenario.clk Scenario.srv Scenario.alice
                "01-Jan-2024" "INBOX" 0 Cases.connected in
  fst visit = Ok 3 ∧ 0 ≤ 3 ≤ 0 + 1000.
Proof.
  intros visit.
  assert (fst visit = Ok 3) as H by (vm_compute; reflexivity).
  split; [exact H|].
  destruct (folder_visit_is_capped Scenario.lib Scenario.clk Scenario.srv
              Scenario.alice "01-Jan-2024" "INBOX" 0 Cases.connected)
    as (tr & _ & _ & _ & Hn).
  exact (Hn 3 H).
Defined.

(** X10.  A fetch that does not deliver a message is passed over: when
    the fetch is answered with a status other than OK, with no data, with
    data that holds no pair, or with a pair of empty content, the count
    and the store stay as they are and the loop goes on with the next
    sequence number. *)
Theorem fetch_failure_skips_message {St} (lib : Library) (clk : Clock)
    (srv : Imap St) (acct : account) (folder : string) (num : bytes)
    (rest : list bytes) (inserted : Z) (w : world St)
    (typ : string) (msg_data : list fetch_part) :
  snd (imap_fetch srv (w_imap w) num "(RFC822 UID)") = Ok (typ, msg_data) →
  typ ≠ "OK" ∨ msg_data = [] ∨ first_tuple msg_data = None
  ∨ first_tuple msg_data = Some [] →
  ∃ w', sync_message lib clk srv acct folder num inserted w
        = (Ok inserted, w')
        ∧ w_db w' = w_db w
        ∧ sync_messages lib clk srv acct folder (num :: rest) inserted w
          = sync_messages lib clk srv acct folder rest inserted w'.
Proof.
  intros Hf Hbad.
  assert (∃ w', sync_message lib clk srv acct folder num inserted w
                = (Ok inserted, w') ∧ w_db w' = w_db w) as (w' & E & Hdb).
  { unfold sync_message, bind, M_fetch, call.
    destruct (imap_fetch srv (w_imap w) num _) as [s1 r1]. cbn in Hf.
    subst r1. cbn.
    destruct Hbad as [Hne|[->|[Hnone|Hempty]]].
    - rewrite bool_decide_eq_false_2 by done. cbn. by eexists.
    - rewrite (bool_decide_eq_true_2 ([] = [])) by done.
      rewrite orb_true_r. by eexists.
    - destruct (negb _ || _); [by eexists|]. rewrite Hnone. by eexists.
    - destruct (negb _ || _); [by eexists|]. rewrite Hempty. by eexists. }
  exists w'. split; [done|]. split; [done|].
  cbn [sync_messages]. unfold bind at 1. by rewrite E.
Qed.

Lemma fetch_failure_skips_message_witness :
  ∃ w', sync_message Scenario.lib Scenario.clk Scenario.srv Scenario.alice
          "INBOX" (Scenario.b "9") 0
          (World (Some "INBOX") (Some (Database [] [])) 0 [])
        = (Ok 0, w').
Proof.
  destruct (fetch_failure_skips_message Scenario.lib Scenario.clk
              Scenario.srv Scenario.alice "INBOX" (Scenario.b "9") [] 0
              (World (Some "INBOX") (Some (Database [] [])) 0 [])
              "OK" [FNone] eq_refl)
    as (w' & E & _); [right; right; left; reflexivity|].
  by exists w'.
Defined.

(** ** Messages without a Message-ID *)

Section FallbackKey.
Context {St : Type} (lib : Library) (clk : Clock).

Lemma str_length_app (s t : string) :
  String.length (s +:+ t) = (String.length s + String.length t)%nat.
Proof.
  induction s as [|c s IH]; [done|]. rewrite str_app_cons. cbn. by rewrite IH.
Qed.

Lemma str_app_inj_r (s1 s2 t : string) : s1 +:+ t = s2 +:+ t → s1 = s2.
Proof.
  revert s2. induction s1 as [|c s1 IH]; intros [|c2 s2] H.
  - done.
  - change (t = String c2 (s2 +:+ t)) in H.
    apply (f_equal String.length) in H. cbn [String.length] in H.
    rewrite str_length_app in H. lia.
  - change (String c (s1 +:+ t) = t) in H.
    apply (f_equal String.length) in H. cbn [String.length] in H.
    rewrite str_length_app in H. lia.
  - rewrite !str_app_cons in H. injection H as -> H. f_equal. by apply IH.
Qed.

Lemma message_key_fallback msg num folder username :
  truthy (Msg.get msg "Message-ID") = false →
  message_key lib msg num folder username
  = fallback_key lib num folder username.
Proof.
  unfold message_key, fallback_key.
  by destruct (Msg.get msg "Message-ID") as [[|c s]|].
Qed.

Lemma fallback_key_folder num f1 f2 username :
  fallback_key lib num f1 username = fallback_key lib num f2 username →
  f1 = f2.
Proof.
  unfold fallback_key. intros H.
  apply (inj (String.app "uid-")) in H.
  apply (inj (String.app (safe_decode lib (VBytes num)))) in H.
  apply (inj (String.app "-")) in H.
  by apply str_app_inj_r in H.
Qed.

(** With a database, [ingest] returns and leaves the key stored: the
    store is as before when the key was there, and longer by one record
    otherwise. *)
Lemma ingest_stores_key acct folder num raw inserted (w : world St) d :
  let key :=
    message_key lib (message_from_bytes lib raw) num folder
                (acc_username acct) in
  let s := ingest lib clk acct folder num raw inserted w in
  w_db w = Some d →
  (is_Some (Store.find_one_by_key key (acc_id acct) (emailmessage d))
   ∧ s = (Ok inserted, w))
  ∨ (Store.find_one_by_key key (acc_id acct) (emailmessage d) = None
     ∧ ∃ doc n, s = (Ok (inserted + 1), with_new_message doc n d w)
                ∧ doc_key doc = (acc_id acct, key)
                ∧ Doc.folder doc = folder).
Proof.
  intros key s Hdb.
  pose proof (ingest_cases lib clk acct folder num raw inserted w) as Hc.
  cbn zeta in Hc. fold key in Hc. rewrite Hdb in Hc.
  destruct (Store.find_one_by_key _ _ _) eqn:Hfind.
  - left. split; [by eexists | done].
  - right. split; [done|].
    destruct Hc as (doc & n & Hi & Hk & _ & Hf & _). by exists doc, n.
Qed.

End FallbackKey.

(** X11.  A message without a usable Message-ID header is identified by
    sequence number, folder and user name.  Met under the same sequence
    number in two different folders of one account, it is therefore
    stored twice: the second visit adds a record of its own. *)
Theorem headerless_message_stored_per_folder {St} (lib : Library)
    (clk : Clock) (acct : account) (f1 f2 : string) (num raw1 raw2 : bytes)
    (n1 n2 : Z) (w : world St) (d : database) :
  let s1 := ingest lib clk acct f1 num raw1 n1 w in
  let s2 := ingest lib clk acct f2 num raw2 n2 (snd s1) in
  w_db w = Some d →
  truthy (Msg.get (message_from_bytes lib raw1) "Message-ID") = false →
  truthy (Msg.get (message_from_bytes lib raw2) "Message-ID") = false →
  f1 ≠ f2 →
  (acc_id acct, fallback_key lib num f2 (acc_username acct))
    ∉ doc_key <$> emailmessage d →
  fst s2 = Ok (n2 + 1)
  ∧ ∃ doc, messages_of (snd s2) = messages_of (snd s1) ++ [doc]
           ∧ Doc.folder doc = f2
           ∧ Doc.message_id doc
             = fallback_key lib num f2 (acc_username acct).
Proof.
  intros s1 s2 Hdb H1 H2 Hne Hfresh.
  assert (∃ d1, w_db (snd s1) = Some d1
                ∧ (acc_id acct, fallback_key lib num f2 (acc_username acct))
                  ∉ doc_key <$> emailmessage d1) as (d1 & Hdb1 & Hfresh1).
  { destruct (ingest_stores_key lib clk acct f1 num raw1 n1 w d Hdb)
      as [[_ E]|(_ & doc & n & E & Hk & _)]; fold s1 in E; rewrite E; cbn.
    - by exists d.
    - eexists. split; [done|]. cbn. rewrite fmap_app, not_elem_of_app.
      split; [done|]. cbn. rewrite list_elem_of_singleton, Hk.
      rewrite (message_key_fallback lib _ _ _ _ H1).
      intros Hpair. apply (f_equal snd) in Hpair. cbn [snd] in Hpair.
      apply fallback_key_folder in Hpair. by apply Hne. }
  destruct (ingest_stores_key lib clk acct f2 num raw2 n2 (snd s1) d1 Hdb1)
    as [[Hin _]|(_ & doc & n & E & Hk & Hf)].
  - exfalso. apply Hfresh1. apply find_one_by_key_is_Some.
    by rewrite <- (message_key_fallback lib _ _ _ _ H2).
  - fold s2 in E. rewrite E. cbn. split; [done|]. exists doc.
    unfold messages_of. rewrite Hdb1. cbn. split; [done|]. split; [done|].
    rewrite <- (message_key_fallback lib _ _ _ _ H2).
    unfold doc_key in Hk. congruence.
Qed.

Lemma headerless_message_stored_per_folder_witness :
  let s1 :=
    ingest Scenario.lib Scenario.clk Scenario.alice "INBOX" (Scenario.b "3")
           (Scenario.b "raw-carol") 0 Scenario.w0 in
  let s2 :=
    ingest Scenario.lib Scenario.clk Scenario.alice "Archive"
           (Scenario.b "3") (Scenario.b "raw-carol") 1 (snd s1) in
  fst s2 = Ok (1 + 1).
Proof.
  exact (proj1 (headerless_message_stored_per_folder Scenario.lib
                  Scenario.clk Scenario.alice "INBOX" "Archive"
                  (Scenario.b "3") (Scenario.b "raw-carol")
                  (Scenario.b "raw-carol") 0 1 Scenario.w0 (Database [] [])
                  eq_refl eq_refl eq_refl ltac:(discriminate)
                  (not_elem_of_nil _))).
Defined.

(** X12.  Two different messages without a usable Message-ID header that
    are met under the same sequence number in the same folder of one
    account share their key: once the first is handled, the second is
    skipped, whatever its content. *)
Theorem headerless_messages_collide {St} (lib : Library) (clk : Clock)
    (acct : account) (folder : string) (num raw1 raw2 : bytes) (n1 n2 : Z)
    (w : world St) (d : database) :
  let s1 := ingest lib clk acct folder num raw1 n1 w in
  let s2 := ingest lib clk acct folder num raw2 n2 (snd s1) in
  w_db w = Some d →
  truthy (Msg.get (message_from_bytes lib raw1) "Message-ID") = false →
  truthy (Msg.get (message_from_bytes lib raw2) "Message-ID") = false →
  s2 = (Ok n2, snd s1).
Proof.
  intros s1 s2 Hdb H1 H2.
  assert (∃ d1, w_db (snd s1) = Some d1
                ∧ is_Some (Store.find_one_by_key
                             (fallback_key lib num folder (acc_username acct))
                             (acc_id acct) (emailmessage d1)))
    as (d1 & Hdb1 & Hin1).
  { destruct (ingest_stores_key lib clk acct folder num raw1 n1 w d Hdb)
      as [[Hin E]|(_ & doc & n & E & Hk & _)]; fold s1 in E; rewrite E; cbn.
    - exists d. split; [done|].
      by rewrite <- (message_key_fallback lib _ _ _ _ H1).
    - eexists. split; [done|]. cbn. apply find_one_by_key_is_Some.
      rewrite fmap_app, elem_of_app. right. cbn.
      apply list_elem_of_singleton.
      by rewrite Hk, (message_key_fallback lib _ _ _ _ H1). }
  destruct (ingest_stores_key lib clk acct folder num raw2 n2 (snd s1) d1
              Hdb1) as [[_ E]|(Hnone & _)]; [done|].
  rewrite (message_key_fallback lib _ _ _ _ H2) in Hnone.
  rewrite Hnone in Hin1. by destruct Hin1.
Qed.

Lemma headerless_messages_collide_witness :
  let s1 :=
    ingest Scenario.lib Scenario.clk Scenario.alice "INBOX" (Scenario.b "3")
           (Scenario.b "raw-carol") 0 Scenario.w0 in
  let s2 :=
    ingest Scenario.lib Scenario.clk Scenario.alice "INBOX" (Scenario.b "3")
           (Scenario.b "quite another message") 1 (snd s1) in
  s2 = (Ok 1, snd s1).
Proof.
  exact (headerless_messages_collide Scenario.lib Scenario.clk
           Scenario.alice "INBOX" (Scenario.b "3") (Scenario.b "raw-carol")
           (Scenario.b "quite another message") 0 1 Scenario.w0
           (Database [] []) eq_refl eq_refl eq_refl).
Defined.

(** ** The stored record *)

Section StoredRecord.
Context {St : Type} (lib : Library) (clk : Clock).

Lemma str_take_length (n : nat) (s : string) :
  (String.length (str_take n s) ≤ n)%nat.
Proof.
  revert s. induction n as [|n IH]; intros [|c s]; cbn; try lia.
  specialize (IH s). lia.
Qed.

Lemma str_take_prefix (n : nat) (s : string) :
  String.prefix (str_take n s) s = true.
Proof.
  revert s. induction n as [|n IH]; intros [|c s]; cbn; try done.
  destruct (ascii_dec c c); [apply IH | done].
Qed.

(** The record a new message is stored as. *)
Lemma ingest_inserts_record acct folder num raw inserted (w : world St) d :
  let msg := message_from_bytes lib raw in
  let key := message_key lib msg num folder (acc_username acct) in
  w_db w = Some d →
  Store.find_one_by_key key (acc_id acct) (emailmessage d) = None →
  ∃ t n,
    ingest lib clk acct folder num raw inserted w
    = (Ok (inserted + 1),
       with_new_message
         (Doc.set_id (length (emailmessage d))
            (record_of lib acct folder num raw
               (default (utc_now clk (w_tick w)) (parse_date lib msg))
               (utc_now clk t) (utc_now clk (S t))))
         n d w).
Proof.
  intros msg key Hdb Hfind. unfold ingest, record_of. fold msg. fold key.
  destruct (extract_body lib msg) as [body_text body_html].
  unfold bind, db_find_one, db_emailmessage, bind, ret.
  rewrite Hdb, Hfind.
  unfold db_insert_one, db_emailmessage, bind, now_utc, ret.
  destruct (parse_date lib msg) as [dt|]; cbn; rewrite Hdb; cbn.
  - exists (w_tick w), 2%nat. unfold with_new_message, Store.insert_one.
    do 2 f_equal. lia.
  - exists (S (w_tick w)), 3%nat. unfold with_new_message, Store.insert_one.
    do 2 f_equal. lia.
Qed.

End StoredRecord.

(** X13.  The record stored for a new message: its snippet has at most
    280 characters and is the beginning of the body text, or of the HTML
    body when there is no body text; its category is what the classifier
    says of the stored subject and that same body; it has no label; and
    [created_at] and [updated_at] are two successive readings of the
    clock. *)
Theorem stored_record_is_consistent {St} (lib : Library) (clk : Clock)
    (acct : account) (folder : string) (num raw : bytes) (inserted : Z)
    (w : world St) (d : database) :
  let key :=
    message_key lib (message_from_bytes lib raw) num folder
                (acc_username acct) in
  w_db w = Some d →
  Store.find_one_by_key key (acc_id acct) (emailmessage d) = None →
  ∃ doc n,
    ingest lib clk acct folder num raw inserted w
    = (Ok (inserted + 1), with_new_message doc n d w)
    ∧ (String.length (Doc.snippet doc) ≤ 280)%nat
    ∧ String.prefix (Doc.snippet doc)
        (or_empty (or_else (Doc.body_text doc) (Doc.body_html doc))) = true
    ∧ Doc.ai_category doc
      = categorize_email (Doc.subject doc)
          (or_else (Doc.body_text doc) (Doc.body_html doc))
    ∧ Doc.labels doc = []
    ∧ ∃ t, Doc.created_at doc = utc_now clk t
           ∧ Doc.updated_at doc = utc_now clk (S t).
Proof.
  intros key Hdb Hfind.
  destruct (ingest_inserts_record lib clk acct folder num raw inserted w d
              Hdb Hfind) as (t & n & E).
  eexists _, n. split; [exact E|]. unfold record_of, Doc.set_id.
  cbn [Doc.snippet Doc.body_text Doc.body_html Doc.ai_category Doc.subject
       Doc.labels Doc.created_at Doc.updated_at].
  split; [apply str_take_length|]. split; [apply str_take_prefix|].
  split; [done|]. split; [done|]. by exists t.
Qed.

Lemma stored_record_is_consistent_witness :
  ∃ doc n,
    ingest Scenario.lib Scenario.clk Scenario.alice "INBOX" (Scenario.b "2")
           (Scenario.b "raw-bob") 0 Scenario.w0
    = (Ok (0 + 1), with_new_message doc n (Database [] []) Scenario.w0)
    ∧ (String.length (Doc.snippet doc) ≤ 280)%nat
    ∧ Doc.labels doc = [].
Proof.
  destruct (stored_record_is_consistent Scenario.lib Scenario.clk
              Scenario.alice "INBOX" (Scenario.b "2") (Scenario.b "raw-bob")
              0 Scenario.w0 (Database [] []) eq_refl eq_refl)
    as (doc & n & E & Hlen & _ & _ & Hlab & _).
  exists doc, n. split; [exact E|]. split; [exact Hlen | exact Hlab].
Defined.

(** ** Marking a message as interested *)

Section MarkInterested.

Lemma update_category_found i c coll doc :
  Store.find_one_by_id i coll = Some doc →
  Store.find_one_by_id i (Store.update_category i c coll)
  = Some (Doc.set_ai_category c doc).
Proof.
  unfold Store.find_one_by_id.
  induction coll as [|d coll IH]; [done|]. cbn.
  case_bool_decide as Hd.
  - intros [= ->]. cbn. by rewrite bool_decide_eq_true_2.
  - intros H. cbn. rewrite bool_decide_eq_false_2 by done. by apply IH.
Qed.

Lemma update_category_other i c coll j :
  i ≠ j →
  Store.find_one_by_id j (Store.update_category i c coll)
  = Store.find_one_by_id j coll.
Proof.
  intros Hne. unfold Store.find_one_by_id.
  induction coll as [|d coll IH]; [done|]. cbn.
  case_bool_decide as Hd; cbn.
  - rewrite !bool_decide_eq_false_2 by congruence. done.
  - by rewrite IH.
Qed.

Lemma update_category_keys i c coll :
  doc_key <$> Store.update_category i c coll = doc_key <$> coll.
Proof.
  induction coll as [|d coll IH]; [done|]. cbn.
  case_bool_decide; cbn; [done | by rewrite IH].
Qed.

Lemma update_category_idem i c coll :
  Store.update_category i c (Store.update_category i c coll)
  = Store.update_category i c coll.
Proof.
  induction coll as [|d coll IH]; [done|]. cbn.
  case_bool_decide as Hd; cbn.
  - by rewrite bool_decide_eq_true_2.
  - rewrite bool_decide_eq_false_2 by done. by rewrite IH.
Qed.

Lemma find_one_by_id_id i coll doc :
  Store.find_one_by_id i coll = Some doc → Doc._id doc = i.
Proof.
  unfold Store.find_one_by_id. intros [_ H]%find_some.
  by apply bool_decide_eq_true in H.
Qed.

Lemma mark_interested_found {St} lib email_id oid (w : world St) d doc :
  w_db w = Some d →
  ObjectId lib email_id = Ok oid →
  Store.find_one_by_id oid (emailmessage d) = Some doc →
  mark_interested lib email_id w
  = (Ok tt,
     World (w_imap w)
           (Some (Database
                    (Store.update_category oid (Some "Interested")
                       (emailmessage d))
                    (agendadoc d)))
           (w_tick w) (w_trace w)).
Proof.
  intros Hdb Hoid Hfind. pose proof (find_one_by_id_id _ _ _ Hfind) as Hid.
  unfold mark_interested, db_emailmessage. rewrite Hdb, Hoid, Hfind. cbn.
  by rewrite Hdb, Hid.
Qed.

End MarkInterested.

(** X14.  Marking a stored message, named by its identifier: it
    succeeds; looking the message up by its identifier afterwards gives
    the same record with the category "Interested"; a lookup by any other
    identifier gives what it gave before; and the keys of the stored
    records, in order, are unchanged, so that deduplication is not
    affected. *)
Theorem mark_interested_sets_category {St} (lib : Library)
    (email_id : string) (oid other : nat) (w : world St) (d : database)
    (doc : Doc.t) :
  let res := mark_interested lib email_id w in
  w_db w = Some d →
  ObjectId lib email_id = Ok oid →
  Store.find_one_by_id oid (emailmessage d) = Some doc →
  fst res = Ok tt
  ∧ Store.find_one_by_id oid (messages_of (snd res))
    = Some (Doc.set_ai_category (Some "Interested") doc)
  ∧ (other ≠ oid →
     Store.find_one_by_id other (messages_of (snd res))
     = Store.find_one_by_id other (emailmessage d))
  ∧ doc_key <$> messages_of (snd res) = doc_key <$> emailmessage d.
Proof.
  intros res Hdb Hoid Hfind. subst res.
  rewrite (mark_interested_found _ _ _ _ _ _ Hdb Hoid Hfind).
  unfold messages_of. cbn.
  split; [done|]. split; [by apply update_category_found|].
  split; [intros Hne; by apply update_category_other|].
  apply update_category_keys.
Qed.

Lemma mark_interested_sets_category_witness :
  Store.find_one_by_id 2
    (messages_of
       (snd (mark_interested Scenario.lib "000000000000000000000002"
               (World (None : option string) (Some Cases.db3) 0 []))))
  = Some (Doc.set_ai_category (Some "Interested")
            (Cases.stored 2 "acc-1" "<3>" "Archive" 10)).
Proof.
  exact (proj1 (proj2 (mark_interested_sets_category Scenario.lib
                         "000000000000000000000002" 2 0
                         (World (None : option string) (Some Cases.db3) 0 [])
                         Cases.db3
                         (Cases.stored 2 "acc-1" "<3>" "Archive" 10)
                         eq_refl eq_refl eq_refl))).
Defined.

(** X15.  What marking does when it does not find its message, and when
    it is repeated.  An identifier text that [ObjectId] refuses makes the
    call raise what [ObjectId] raised, uncaught; a well-formed identifier
    of no stored message is answered with HTTP 404; in both cases nothing
    is changed.  Marking the same message a second time succeeds and
    changes nothing more. *)
Theorem mark_interested_unknown_or_repeated {St} (lib : Library)
    (email_id : string) (w : world St) (d : database) :
  w_db w = Some d →
  (∀ e, ObjectId lib email_id = Raise e →
        mark_interested lib email_id w = (Raise (Uncaught e), w))
  ∧ (∀ oid, ObjectId lib email_id = Ok oid →
            Store.find_one_by_id oid (emailmessage d) = None →
            mark_interested lib email_id w
            = (Raise (HTTPException 404 "Email not found"), w))
  ∧ (∀ oid, ObjectId lib email_id = Ok oid →
            is_Some (Store.find_one_by_id oid (emailmessage d)) →
            mark_interested lib email_id
                            (snd (mark_interested lib email_id w))
            = (Ok tt, snd (mark_interested lib email_id w))).
Proof.
  intros Hdb. split; [|split].
  - intros e Hoid. unfold mark_interested, db_emailmessage.
    by rewrite Hdb, Hoid.
  - intros oid Hoid Hnone. unfold mark_interested, db_emailmessage.
    by rewrite Hdb, Hoid, Hnone.
  - intros oid Hoid [doc Hfind].
    rewrite (mark_interested_found _ _ _ _ _ _ Hdb Hoid Hfind). cbn [snd].
    erewrite mark_interested_found;
      [|done | exact Hoid | by apply update_category_found].
    cbn. by rewrite update_category_idem.
Qed.

Lemma mark_interested_unknown_or_repeated_witness :
  let w := World (None : option string) (Some Cases.db3) 0 [] in
  mark_interested Scenario.lib "7" w
  = (Raise (Uncaught
              (PyErr "InvalidId"
                 ("'7' is not a valid ObjectId, it must be a "
                  +:+ "12-byte input or a 24-character hex string"))), w)
  ∧ mark_interested Scenario.lib "000000000000000000000007" w
    = (Raise (HTTPException 404 "Email not found"), w).
Proof.
  intros w.
  destruct (mark_interested_unknown_or_repeated Scenario.lib "7" w Cases.db3
              eq_refl) as [Hbad _].
  destruct (mark_interested_unknown_or_repeated Scenario.lib
              "000000000000000000000007" w Cases.db3 eq_refl)
    as (_ & Hnone & _).
  split.
  - exact (Hbad _ eq_refl).
  - exact (Hnone 7%nat eq_refl eq_refl).
Defined.

(** ** Scoring and choosing a reference document *)

Section ScoreProperties.

Lemma size_list_to_set_le (l : list string) :
  (size (list_to_set l : gset string) ≤ length l)%nat.
Proof.
  induction l as [|x l IH]; [done|]. cbn [list_to_set length].
  rewrite size_union_alt, size_singleton.
  assert (size (list_to_set l ∖ {[x]} : gset string)
          ≤ size (list_to_set l : gset string))%nat
    as Hsub by (apply subseteq_size, subseteq_difference_l; reflexivity).
  lia.
Qed.

End ScoreProperties.

(** X16.  The overlap score is symmetric in its two texts, ignores
    letter case, and lies between 0 and the number of words of either
    text. *)
Theorem simple_score_symmetric_and_bounded (query doc : string) :
  Suggest.simple_score query doc = Suggest.simple_score doc query
  ∧ Suggest.simple_score (lower query) doc = Suggest.simple_score query doc
  ∧ 0 ≤ Suggest.simple_score query doc
  ∧ Suggest.simple_score query doc
    ≤ Z.of_nat (length (str_split (lower query)))
  ∧ Suggest.simple_score query doc
    ≤ Z.of_nat (length (str_split (lower doc))).
Proof.
  unfold Suggest.simple_score.
  split; [by rewrite (comm_L (∩))|]. split; [by rewrite lower_idem|].
  split; [lia|].
  pose proof (size_list_to_set_le (str_split (lower query))) as Hq.
  pose proof (size_list_to_set_le (str_split (lower doc))) as Hd.
  assert (size (list_to_set (str_split (lower query))
                ∩ list_to_set (str_split (lower doc)) : gset string)
          ≤ size (list_to_set (str_split (lower query)) : gset string))%nat
    as Hl by apply subseteq_size, intersection_subseteq_l.
  assert (size (list_to_set (str_split (lower query))
                ∩ list_to_set (str_split (lower doc)) : gset string)
          ≤ size (list_to_set (str_split (lower doc)) : gset string))%nat
    as Hr by apply subseteq_size, intersection_subseteq_r.
  lia.
Qed.

(** X17.  There is no threshold on the score: the reply is built from the
    first reference document unless a later one scores strictly higher,
    so that a message sharing no word with any document still gets the
    content of the first document. *)
Theorem suggest_reply_defaults_to_first_document (lib : Library)
    (d : database) (email_id : string) (oid : nat) (em : Doc.t)
    (first : agenda_doc) (rest : list agenda_doc) :
  let score doc :=
    Suggest.simple_score (Suggest.query_of em) (Suggest.doc_text doc) in
  ObjectId lib email_id = Ok oid →
  Store.find_one_by_id oid (emailmessage d) = Some em →
  agendadoc d = first :: rest →
  (∀ doc, doc ∈ rest → score doc ≤ score first) →
  Suggest.suggest_reply lib (Some d) email_id
  = Ok (Suggest.compose em (Some first)).
Proof.
  intros score Hid Hem Hdocs Hrest. unfold Suggest.suggest_reply.
  rewrite Hid, Hem, Hdocs.
  destruct (best_of_first_maximum (Suggest.query_of em) (first :: rest))
    as [[? _]|(i & best & Hi & E & _ & Hfirst)]; [done|].
  rewrite E. cbn [fst]. destruct i as [|i].
  - cbn in Hi. by injection Hi as <-.
  - exfalso. cbn in Hi.
    assert (best ∈ rest) as Hin by (by eapply list_elem_of_lookup_2).
    specialize (Hrest _ Hin).
    specialize (Hfirst 0%nat first ltac:(lia) eq_refl).
    fold (score best) in Hfirst. fold (score first) in Hfirst. lia.
Qed.

Lemma suggest_reply_defaults_to_first_document_witness :
  Suggest.suggest_reply Scenario.lib (Some Cases.db_suggest2)
                        "000000000000000000000000"
  = Ok (Suggest.compose Scenario.em0 (Some Scenario.doc_pricing)).
Proof.
  assert (Suggest.simple_score (Suggest.query_of Scenario.em0)
            (Suggest.doc_text Scenario.doc_pricing) = 4) as Hp
    by (vm_compute; reflexivity).
  assert (Suggest.simple_score (Suggest.query_of Scenario.em0)
            (Suggest.doc_text Scenario.doc_support) = 1) as Hs
    by (vm_compute; reflexivity).
  apply (suggest_reply_defaults_to_first_document Scenario.lib
           Cases.db_suggest2 "000000000000000000000000" 0
           Scenario.em0 Scenario.doc_pricing [Scenario.doc_support]
           eq_refl eq_refl eq_refl).
  intros doc Hin. apply list_elem_of_singleton in Hin. subst doc.
  rewrite Hp, Hs. lia.
Defined.

(** ** Listing folders and messages *)

Section ListingProperties.

Lemma sum_list_with_plus {A} (f g : A → nat) (l : list A) :
  sum_list_with (λ x, f x + g x)%nat l
  = (sum_list_with f l + sum_list_with g l)%nat.
Proof. induction l as [|x l IH]; cbn; [done|]. rewrite IH. lia. Qed.

Lemma sum_list_with_eq {A} (f g : A → nat) (l : list A) :
  (∀ x, f x = g x) → sum_list_with f l = sum_list_with g l.
Proof. intros H. induction l as [|x l IH]; cbn; [done|]. by rewrite H, IH. Qed.

Lemma sum_list_with_zero {A} (l : list A) :
  sum_list_with (λ _, 0%nat) l = 0%nat.
Proof. induction l as [|x l IH]; cbn; [done|]. by rewrite IH. Qed.

Lemma sum_list_with_indicator (x : string) (ks : list string) :
  NoDup ks →
  sum_list_with (λ f, if decide (x = f) then 1 else 0)%nat ks
  = (if decide (x ∈ ks) then 1 else 0)%nat.
Proof.
  induction ks as [|k ks IH]; intros Hnd; [done|].
  apply NoDup_cons in Hnd as [Hk Hnd]. cbn. rewrite (IH Hnd).
  destruct (decide (x = k)) as [->|Hne].
  - rewrite (decide_True (P := k ∈ k :: ks)) by (apply elem_of_cons; by left).
    by rewrite decide_False.
  - destruct (decide (x ∈ ks)) as [Hin|Hnin].
    + by rewrite decide_True by (apply elem_of_cons; by right).
    + rewrite decide_False; [done|]. rewrite elem_of_cons. tauto.
Qed.

(** Counting the records folder by folder counts each record once. *)
Lemma sum_folder_counts (ks : list string) (docs : list Doc.t) :
  NoDup ks →
  (∀ d, d ∈ docs → Doc.folder d ∈ ks) →
  sum_list_with (λ f, length (filter (λ d, Doc.folder d = f) docs)) ks
  = length docs.
Proof.
  intros Hnd. induction docs as [|d docs IH]; intros Hin.
  - apply sum_list_with_zero.
  - transitivity
      (sum_list_with
         (λ f, (if decide (Doc.folder d = f) then 1 else 0)
               + length (filter (λ d, Doc.folder d = f) docs))%nat ks).
    { apply sum_list_with_eq. intros f. rewrite filter_cons.
      by destruct (decide (Doc.folder d = f)). }
    rewrite sum_list_with_plus, sum_list_with_indicator by done.
    rewrite decide_True by (apply Hin, elem_of_cons; by left).
    rewrite IH; [done|]. intros d' ?. apply Hin, elem_of_cons. by right.
Qed.

Lemma sum_group_by_folder (docs : list Doc.t) :
  sum_list_with snd (Listing.group_by_folder docs) = length docs.
Proof.
  unfold Listing.group_by_folder.
  rewrite <- (sum_folder_counts (remove_dups (Doc.folder <$> docs)) docs).
  - induction (remove_dups (Doc.folder <$> docs)) as [|k ks IH]; [done|].
    cbn. by rewrite IH.
  - apply NoDup_remove_dups.
  - intros d Hd. apply elem_of_remove_dups, list_elem_of_fmap. eauto.
Qed.

Lemma group_by_folder_rows (docs : list Doc.t) (row : string * nat) :
  row ∈ Listing.group_by_folder docs →
  snd row = length (filter (λ d, Doc.folder d = fst row) docs)
  ∧ (1 ≤ snd row)%nat.
Proof.
  unfold Listing.group_by_folder.
  intros (f & -> & Hf)%list_elem_of_fmap. cbn. split; [done|].
  apply elem_of_remove_dups, list_elem_of_fmap in Hf as (d & -> & Hd).
  assert (d ∈ filter (λ d0, Doc.folder d0 = Doc.folder d) docs) as Hin
    by (by apply list_elem_of_filter).
  destruct (filter _ docs); [by apply elem_of_nil in Hin | cbn; lia].
Qed.

End ListingProperties.

(** X18.  The folder listing of an account accounts for every record of
    the account exactly once: each row gives the number of the account's
    records in its folder, which is at least one, and the counts add up
    to the number of the account's records. *)
Theorem list_folders_counts_every_record (d : database)
    (account_id : string) :
  let mine := filter (λ x, Doc.account_id x = account_id) (emailmessage d) in
  ∃ rows,
    Listing.list_folders (Some d) account_id = Ok rows
    ∧ sum_list_with snd rows = length mine
    ∧ Forall (λ row,
                snd row
                = length (filter (λ x, Doc.folder x = fst row) mine)
                ∧ (1 ≤ snd row)%nat) rows.
Proof.
  intros mine. eexists. split; [reflexivity|]. fold mine. split.
  - rewrite merge_sort_Permutation. apply sum_group_by_folder.
  - apply Forall_forall. intros row Hrow.
    rewrite merge_sort_Permutation in Hrow.
    by apply group_by_folder_rows.
Qed.

(** X19.  The folder listing names each folder in which the account has
    a record once and no other folder, in ascending order of the folder
    names. *)
Theorem list_folders_lists_each_folder_once (d : database)
    (account_id : string) :
  ∃ rows,
    Listing.list_folders (Some d) account_id = Ok rows
    ∧ NoDup (fst <$> rows)
    ∧ Sorted (λ a b, String.le (fst a) (fst b)) rows
    ∧ ∀ f, f ∈ fst <$> rows
           ↔ ∃ x, x ∈ emailmessage d
                  ∧ Doc.account_id x = account_id ∧ Doc.folder x = f.
Proof.
  eexists. split; [reflexivity|].
  set (mine := filter (λ x, Doc.account_id x = account_id) (emailmessage d)).
  assert (fst <$> Listing.group_by_folder mine
          = remove_dups (Doc.folder <$> mine)) as Hfst.
  { unfold Listing.group_by_folder. rewrite <- list_fmap_compose.
    apply list_fmap_id. }
  split; [|split].
  - rewrite merge_sort_Permutation, Hfst. apply NoDup_remove_dups.
  - assert (Total (λ a b : string * nat, String.le (fst a) (fst b)))
      as Htotal by (intros a b; apply (total String.le)).
    apply (Sorted_merge_sort _).
  - intros f. rewrite merge_sort_Permutation, Hfst, elem_of_remove_dups.
    rewrite list_elem_of_fmap. split.
    + intros (x & -> & [Ha Hx]%list_elem_of_filter). eauto.
    + intros (x & Hx & Ha & <-). exists x. split; [done|].
      by apply list_elem_of_filter.
Qed.

Section ListEmailsProperties.

(** What a successful listing returns. *)
Lemma list_emails_ok (qr : Query) (db : option database)
    (account_id folder q : option string) (limit skip : Z)
    (items : list Doc.t) (count : Z) :
  Listing.list_emails qr db account_id folder q limit skip
  = Ok (items, count) →
  ∃ d, db = Some d
       ∧ 0 ≤ skip
       ∧ items
         = take (Z.to_nat (Listing.page_size limit))
             (drop (Z.to_nat skip)
                (sort_date_desc qr
                   (filter (λ x, Listing.email_filter qr account_id folder
                                   q x = true)
                           (emailmessage d))))
       ∧ count = Z.of_nat (length items).
Proof.
  unfold Listing.list_emails. destruct db as [d|]; [|done].
  destruct (Z.ltb_spec skip 0); [done|].
  destruct (truthy q && negb _); [done|].
  intros [= <- <-]. by exists d.
Qed.

End ListEmailsProperties.

(** X20.  A listing returns at most 200 messages whatever limit is asked
    for, and at most one when the limit is zero or negative; the count it
    reports is the number of messages returned. *)
Theorem list_emails_page_is_bounded (qr : Query) (db : option database)
    (account_id folder q : option string) (limit skip : Z)
    (items : list Doc.t) (count : Z) :
  Listing.list_emails qr db account_id folder q limit skip
  = Ok (items, count) →
  count = Z.of_nat (length items)
  ∧ count ≤ 200
  ∧ count ≤ Z.max 1 limit.
Proof.
  intros (d & _ & _ & -> & ->)%list_emails_ok. split; [done|].
  rewrite length_take. unfold Listing.page_size. lia.
Qed.

Lemma list_emails_page_is_bounded_witness :
  Listing.list_emails Cases.qr (Some Cases.db3) (Some "acc-1") None None
                      (-5) 0
  = Ok ([Cases.stored 3 "acc-1" "<4>" "INBOX" 40], 1)
  ∧ 1 ≤ Z.max 1 (-5).
Proof.
  assert (Listing.list_emails Cases.qr (Some Cases.db3) (Some "acc-1") None
            None (-5) 0
          = Ok ([Cases.stored 3 "acc-1" "<4>" "INBOX" 40], 1)) as H
    by (vm_compute; reflexivity).
  split; [exact H|].
  exact (proj2 (proj2 (list_emails_page_is_bounded _ _ _ _ _ _ _ _ _ H))).
Defined.

(** X21.  Provided the database sorts by rearranging, and in descending
    order of date, every message a listing returns is a stored message
    that satisfies the filter - it belongs to the account asked for and
    lies in the folder asked for, when these are given and not empty -
    and the messages come newest first. *)
Theorem list_emails_items_match_filter (qr : Query) (d : database)
    (account_id folder q : option string) (limit skip : Z)
    (items : list Doc.t) (count : Z) :
  (∀ l, sort_date_desc qr l ≡ₚ l) →
  (∀ l, StronglySorted (λ a b, Doc.date b ≤ Doc.date a)
                       (sort_date_desc qr l)) →
  Listing.list_emails qr (Some d) account_id folder q limit skip
  = Ok (items, count) →
  StronglySorted (λ a b, Doc.date b ≤ Doc.date a) items
  ∧ ∀ x, x ∈ items →
         x ∈ emailmessage d
         ∧ (truthy account_id = true →
            Doc.account_id x = or_empty account_id)
         ∧ (truthy folder = true → Doc.folder x = or_empty folder).
Proof.
  intros Hperm Hsorted (d' & [= <-] & _ & -> & _)%list_emails_ok. split.
  - set (sorted := sort_date_desc qr _).
    pose proof (Hsorted
                  (filter (λ x, Listing.email_filter qr account_id folder q x
                                = true) (emailmessage d))) as Hs.
    fold sorted in Hs.
    rewrite <- (take_drop (Z.to_nat skip) sorted) in Hs.
    apply StronglySorted_app_1_r in Hs.
    rewrite <- (take_drop (Z.to_nat (Listing.page_size limit))
                  (drop (Z.to_nat skip) sorted)) in Hs.
    by apply StronglySorted_app_1_l in Hs.
  - intros x Hx. apply subseteq_take in Hx.
    assert (x ∈ sort_date_desc qr
                  (filter (λ x, Listing.email_filter qr account_id folder q x
                                = true) (emailmessage d))) as Hx'.
    { by apply subseteq_drop in Hx. }
    rewrite Hperm in Hx'.
    apply list_elem_of_filter in Hx' as [Hf Hin]. split; [done|].
    unfold Listing.email_filter in Hf.
    apply andb_true_iff in Hf as [[Ha Hfo]%andb_true_iff _]. split.
    + intros Ht. rewrite Ht in Ha. by apply bool_decide_eq_true in Ha.
    + intros Ht. rewrite Ht in Hfo. by apply bool_decide_eq_true in Hfo.
Qed.

Lemma list_emails_items_match_filter_witness :
  Forall (λ x, Doc.account_id x = "acc-1" ∧ Doc.folder x = "INBOX")
         [Cases.stored 3 "acc-1" "<4>" "INBOX" 40;
          Cases.stored 0 "acc-1" "<1>" "INBOX" 30].
Proof.
  assert (Total Cases.newer_first) as Htotal
    by (intros a b; unfold Cases.newer_first; lia).
  assert (Transitive Cases.newer_first) as Htrans
    by (intros a b c; unfold Cases.newer_first; lia).
  assert (Listing.list_emails Cases.qr (Some Cases.db3) (Some "acc-1")
            (Some "INBOX") (Some "") 50 0
          = Ok ([Cases.stored 3 "acc-1" "<4>" "INBOX" 40;
                 Cases.stored 0 "acc-1" "<1>" "INBOX" 30], 2)) as H
    by (vm_compute; reflexivity).
  destruct (list_emails_items_match_filter Cases.qr Cases.db3 (Some "acc-1")
              (Some "INBOX") (Some "") 50 0 _ _
              (λ l, merge_sort_Permutation Cases.newer_first l)
              (λ l, StronglySorted_merge_sort Cases.newer_first l) H)
    as [_ Hall].
  apply Forall_forall. intros x Hx. destruct (Hall x Hx) as (_ & Ha & Hf).
  split; [exact (Ha eq_refl) | exact (Hf eq_refl)].
Defined.

Section Paging.

(** Messages of pairwise distinct dates can be put in descending order of
    date in one way only. *)
Lemma date_order_unique (l1 l2 : list Doc.t) :
  StronglySorted (λ a b, Doc.date b ≤ Doc.date a) l1 →
  StronglySorted (λ a b, Doc.date b ≤ Doc.date a) l2 →
  l1 ≡ₚ l2 →
  NoDup (Doc.date <$> l1) →
  l1 = l2.
Proof.
  revert l2. induction l1 as [|x l1 IH]; intros l2 Hs1 Hs2 Hperm Hnd.
  { symmetry. by apply Permutation_nil. }
  destruct l2 as [|y l2].
  { symmetry in Hperm. by apply Permutation_nil_cons in Hperm. }
  apply StronglySorted_inv in Hs1 as [Hs1 Hx].
  apply StronglySorted_inv in Hs2 as [Hs2 Hy].
  rewrite fmap_cons in Hnd. apply NoDup_cons in Hnd as [Hnew Hnd].
  assert (x = y) as <-.
  { assert (x ∈ y :: l2) as Hin1 by (rewrite <- Hperm; left).
    assert (y ∈ x :: l1) as Hin2 by (rewrite Hperm; left).
    apply elem_of_cons in Hin1 as [?|Hin1]; [done|].
    apply elem_of_cons in Hin2 as [?|Hin2]; [done|].
    exfalso. apply Hnew.
    rewrite Forall_forall in Hx, Hy.
    specialize (Hx _ Hin2). specialize (Hy _ Hin1). cbn in Hx, Hy.
    replace (Doc.date x) with (Doc.date y) by lia.
    by apply list_elem_of_fmap_2. }
  f_equal. apply IH; [done..| |done].
  by apply (inj (x ::.)) in Hperm.
Qed.

Lemma sorts_by_date_agree srt1 srt2 (l : list Doc.t) :
  sorts_by_date srt1 → sorts_by_date srt2 →
  NoDup (Doc.date <$> l) →
  srt1 l = srt2 l.
Proof.
  intros [Hp1 Hs1] [Hp2 Hs2] Hnd.
  apply date_order_unique; [apply Hs1 | apply Hs2 | |].
  - by rewrite Hp1, Hp2.
  - by rewrite Hp1.
Qed.

(** What a listing returns when the database sorts by [srt]. *)
Lemma list_emails_sorting_with srt (qr : Query) (d : database)
    (account_id folder q : option string) (limit skip : Z)
    (items : list Doc.t) (count : Z) :
  Listing.list_emails (sorting_with srt qr) (Some d) account_id folder q
                      limit skip
  = Ok (items, count)
  ↔ 0 ≤ skip
    ∧ truthy q && negb (regex_valid qr (or_empty q)) = false
    ∧ items
      = take (Z.to_nat (Listing.page_size limit))
          (drop (Z.to_nat skip)
             (srt (filter (λ x, Listing.email_filter qr account_id folder
                                  q x = true)
                          (emailmessage d))))
    ∧ count = Z.of_nat (length items).
Proof.
  unfold Listing.list_emails. cbn [sorting_with regex_valid sort_date_desc].
  destruct (Z.ltb_spec skip 0).
  { split; [done | intros [? _]; lia]. }
  destruct (truthy q && negb _).
  { split; [done | by intros (_ & ? & _)]. }
  split.
  - intros [= <- <-]. done.
  - intros (_ & _ & -> & ->). done.
Qed.

Lemma merge_sort_sorts_by_date :
  sorts_by_date (merge_sort Cases.newer_first).
Proof.
  assert (Total Cases.newer_first) as Htotal
    by (intros a b; unfold Cases.newer_first; lia).
  assert (Transitive Cases.newer_first) as Htrans
    by (intros a b c; unfold Cases.newer_first; lia).
  split; intros l.
  - apply merge_sort_Permutation.
  - apply (StronglySorted_merge_sort Cases.newer_first).
Qed.

Lemma sort_from_last_sorts_by_date : sorts_by_date Cases.sort_from_last.
Proof.
  destruct merge_sort_sorts_by_date as [Hp Hs]. unfold Cases.sort_from_last.
  split; intros l.
  - rewrite Hp. symmetry. apply Permutation_rev.
  - apply Hs.
Qed.

End Paging.

(** X22.  Pages follow one another when the dates settle the order.  Let
    the messages that match the filter have pairwise distinct dates, and
    let the database sort each of three queries in its own way, each by
    date and newest first.  Then, with the page sizes the code asks for,
    [min(200, max(1, limit))], the page of the second query, which skips
    the first page, is what the one page of both sizes has beyond the
    first page - as long as the two sizes together do not exceed 200. *)
Theorem list_emails_pages_compose (qr : Query)
    (srt1 srt2 srt3 : list Doc.t → list Doc.t) (d : database)
    (account_id folder q : option string) (limit limit' skip : Z)
    (page1 page2 : list Doc.t) (c1 c2 : Z) :
  sorts_by_date srt1 → sorts_by_date srt2 → sorts_by_date srt3 →
  NoDup (Doc.date
           <$> filter (λ x, Listing.email_filter qr account_id folder q x
                            = true)
                      (emailmessage d)) →
  Listing.page_size limit + Listing.page_size limit' ≤ 200 →
  Listing.list_emails (sorting_with srt1 qr) (Some d) account_id folder q
                      limit skip
  = Ok (page1, c1) →
  Listing.list_emails (sorting_with srt2 qr) (Some d) account_id folder q
                      limit' (skip + Listing.page_size limit)
  = Ok (page2, c2) →
  Listing.list_emails (sorting_with srt3 qr) (Some d) account_id folder q
                      (Listing.page_size limit + Listing.page_size limit')
                      skip
  = Ok (page1 ++ page2, c1 + c2).
Proof.
  intros Hs1 Hs2 Hs3 Hnd Hsum.
  rewrite !list_emails_sorting_with.
  intros (Hskip & Hq & -> & ->) (_ & _ & -> & ->).
  rewrite (sorts_by_date_agree srt1 srt3 _ Hs1 Hs3 Hnd).
  rewrite (sorts_by_date_agree srt2 srt3 _ Hs2 Hs3 Hnd).
  set (sorted := srt3 _).
  split; [done|]. split; [done|].
  assert (1 ≤ Listing.page_size limit) as H1
    by (unfold Listing.page_size; lia).
  assert (1 ≤ Listing.page_size limit') as H2
    by (unfold Listing.page_size; lia).
  assert (Z.to_nat (Listing.page_size
                      (Listing.page_size limit + Listing.page_size limit'))
          = (Z.to_nat (Listing.page_size limit)
             + Z.to_nat (Listing.page_size limit'))%nat) as ->
    by (unfold Listing.page_size in *; lia).
  assert (drop (Z.to_nat (skip + Listing.page_size limit)) sorted
          = drop (Z.to_nat (Listing.page_size limit))
                 (drop (Z.to_nat skip) sorted)) as ->.
  { rewrite drop_drop. f_equal. lia. }
  rewrite take_take_drop. split; [done|].
  by rewrite <- Nat2Z.inj_add, <- length_app, take_take_drop.
Qed.

Lemma list_emails_pages_compose_witness :
  Listing.list_emails
    (sorting_with (merge_sort Cases.newer_first) Cases.qr)
    (Some Cases.db3) (Some "acc-1") None None
    (Listing.page_size (-5) + Listing.page_size 1) 0
  = Ok ([Cases.stored 3 "acc-1" "<4>" "INBOX" 40]
        ++ [Cases.stored 0 "acc-1" "<1>" "INBOX" 30], 1 + 1).
Proof.
  apply (list_emails_pages_compose Cases.qr
           (merge_sort Cases.newer_first) Cases.sort_from_last
           (merge_sort Cases.newer_first) Cases.db3 (Some "acc-1") None None
           (-5) 1 0).
  - exact merge_sort_sorts_by_date.
  - exact sort_from_last_sorts_by_date.
  - exact merge_sort_sorts_by_date.
  - apply (bool_decide_unpack _). vm_compute. exact I.
  - vm_compute. discriminate.
  - vm_compute. reflexivity.
  - vm_compute. reflexivity.
Defined.

(** Without distinct dates the pages need not fit together: of two
    messages of the same date, a first page of one message and a second
    page of one message can both hold the first, when the second query
    is sorted in another way. *)
Example list_emails_pages_repeat_on_equal_dates :
  Listing.list_emails
    (sorting_with (merge_sort Cases.newer_first) Cases.qr)
    (Some Cases.twins) (Some "acc-1") None None 1 0
  = Ok ([Cases.stored 0 "acc-1" "<1>" "INBOX" 30], 1)
  ∧ Listing.list_emails
      (sorting_with Cases.sort_from_last Cases.qr)
      (Some Cases.twins) (Some "acc-1") None None 1 1
    = Ok ([Cases.stored 0 "acc-1" "<1>" "INBOX" 30], 1).
Proof. split; vm_compute; reflexivity. Qed.

(** ** Runs, marks and reference documents together *)

Section Together.
Context {St : Type} (lib : Library) (clk : Clock).

Lemma ingest_keeps_agenda (w0 : world St) acct folder num raw inserted :
  preserves (λ w : world St, agendadoc <$> w_db w = agendadoc <$> w_db w0)
            (ingest lib clk acct folder num raw inserted).
Proof.
  intros w r w' HI H.
  pose proof (ingest_cases lib clk acct folder num raw inserted w) as Hc.
  cbn zeta in Hc. destruct (w_db w) as [d|] eqn:Hdb.
  - destruct (Store.find_one_by_key _ _ _).
    + rewrite Hc in H. injection H as _ <-. by rewrite Hdb.
    + destruct Hc as (doc & n & Hi & _). rewrite Hi in H.
      injection H as _ <-. cbn. by rewrite <- HI.
  - rewrite Hc in H. injection H as _ <-. by rewrite Hdb.
Qed.

Lemma find_one_by_id_app i (coll new : list Doc.t) doc :
  Store.find_one_by_id i coll = Some doc →
  Store.find_one_by_id i (coll ++ new) = Some doc.
Proof.
  unfold Store.find_one_by_id. induction coll as [|d coll IH]; [done|].
  cbn. destruct (bool_decide (Doc._id d = i)); [done | apply IH].
Qed.

End Together.

(** X23.  Neither a run nor marking a message touches the reference
    documents. *)
Theorem reference_documents_untouched {St} (lib : Library) (clk : Clock)
    (srv : Imap St) (acct : account) (folders : option (list string))
    (days : Z) (email_id : string) (w : world St) :
  agendadoc <$> w_db (snd (sync_account lib clk srv acct folders days w))
  = agendadoc <$> w_db w
  ∧ agendadoc <$> w_db (snd (mark_interested lib email_id w))
    = agendadoc <$> w_db w.
Proof.
  split.
  - apply (sync_account_preserves lib clk srv
             (λ w', agendadoc <$> w_db w' = agendadoc <$> w_db w)).
    + intros w1 w2 Hw. by rewrite Hw.
    + intros. apply ingest_keeps_agenda.
    + done.
  - unfold mark_interested, db_emailmessage.
    destruct (w_db w) as [d|] eqn:Hdb; cbn; [|by rewrite Hdb].
    destruct (ObjectId lib email_id) as [oid|e]; cbn; [|by rewrite Hdb].
    destruct (Store.find_one_by_id _ _); cbn; by rewrite Hdb.
Qed.

(** X24.  A mark survives later runs: once a stored message has been
    marked as interested, a run for any account leaves its record, found
    by its identifier, with the category "Interested". *)
Theorem mark_survives_later_run {St} (lib : Library) (clk : Clock)
    (srv : Imap St) (acct : account) (folders : option (list string))
    (days : Z) (email_id : string) (oid : nat) (w : world St)
    (d : database) (doc : Doc.t) :
  let marked := snd (mark_interested lib email_id w) in
  let run := sync_account lib clk srv acct folders days marked in
  w_db w = Some d →
  ObjectId lib email_id = Ok oid →
  Store.find_one_by_id oid (emailmessage d) = Some doc →
  Store.find_one_by_id oid (messages_of (snd run))
  = Some (Doc.set_ai_category (Some "Interested") doc).
Proof.
  intros marked run Hdb Hoid Hfind.
  destruct (sync_account_adds lib clk srv acct folders days marked)
    as (new & E & _ & _).
  fold run in E. rewrite E. apply find_one_by_id_app.
  subst marked. rewrite (mark_interested_found _ _ _ _ _ _ Hdb Hoid Hfind).
  unfold messages_of. cbn. by apply update_category_found.
Qed.

Lemma mark_survives_later_run_witness :
  let marked :=
    snd (mark_interested Scenario.lib "000000000000000000000002"
           (World (None : option string) (Some Cases.db3) 0 [])) in
  let run :=
    sync_account Scenario.lib Scenario.clk Scenario.srv Scenario.alice
                 (Some ["INBOX"; "Archive"]) 7 marked in
  Store.find_one_by_id 2 (messages_of (snd run))
  = Some (Doc.set_ai_category (Some "Interested")
            (Cases.stored 2 "acc-1" "<3>" "Archive" 10)).
Proof.
  exact (mark_survives_later_run Scenario.lib Scenario.clk Scenario.srv
           Scenario.alice (Some ["INBOX"; "Archive"]) 7
           "000000000000000000000002" 2
           (World (None : option string) (Some Cases.db3) 0 [])
           Cases.db3 (Cases.stored 2 "acc-1" "<3>" "Archive" 10)
           eq_refl eq_refl eq_refl).
Defined.

(** ** The text of a suggestion *)

Section ReplyText.

Lemma rev_app_acc (s acc : string) :
  String.rev_app s acc = String.rev_app s "" +:+ acc.
Proof.
  revert acc. induction s as [|c s IH]; intros acc; [done|].
  cbn [String.rev_app]. rewrite (IH (String c acc)), (IH (String c "")).
  by rewrite str_app_assoc.
Qed.

Lemma str_rev_cons (c : ascii) (s : string) :
  String.rev (String c s) = String.rev s +:+ String c "".
Proof. unfold String.rev. cbn [String.rev_app]. apply rev_app_acc. Qed.

Lemma str_app_empty_r (s : string) : s +:+ "" = s.
Proof. induction s as [|c s IH]; [done|]. by rewrite str_app_cons, IH. Qed.

Lemma str_rev_app (s t : string) :
  String.rev (s +:+ t) = String.rev t +:+ String.rev s.
Proof.
  induction s as [|c s IH].
  - change ("" +:+ t) with t. change (String.rev "") with "".
    by rewrite str_app_empty_r.
  - by rewrite str_app_cons, !str_rev_cons, IH, str_app_assoc.
Qed.

Lemma str_rev_involutive (s : string) : String.rev (String.rev s) = s.
Proof.
  induction s as [|c s IH]; [done|].
  by rewrite str_rev_cons, str_rev_app, IH.
Qed.

(** Stripping on the left stops at the first visible character. *)
Lemma lstrip_app_visible (s : string) (c : ascii) (t : string) :
  PyStr.is_space c = false →
  ∃ kept, lstrip (s +:+ String c t) = kept +:+ String c t.
Proof.
  intros Hc. induction s as [|a s IH].
  - exists "". change ("" +:+ String c t) with (String c t).
    cbn [lstrip]. by rewrite Hc.
  - rewrite str_app_cons. cbn [lstrip].
    destruct (PyStr.is_space a); [apply IH|].
    exists (String a s). by rewrite str_app_cons.
Qed.

(** A text that starts with the greeting still starts with it after
    [strip]. *)
Lemma strip_keeps_greeting (rest : string) :
  ∃ tail, strip (Suggest.greeting +:+ rest) = Suggest.greeting +:+ tail.
Proof.
  unfold strip.
  assert (lstrip (Suggest.greeting +:+ rest) = Suggest.greeting +:+ rest)
    as -> by reflexivity.
  rewrite str_rev_app.
  assert (String.rev Suggest.greeting
          = String "." (String.rev "Thank you for your email")) as ->
    by reflexivity.
  destruct (lstrip_app_visible (String.rev rest) "."
              (String.rev "Thank you for your email") eq_refl)
    as [kept ->].
  rewrite str_rev_app. exists (String.rev kept). by f_equal.
Qed.

Lemma prefix_refl (k : string) : String.prefix k k = true.
Proof.
  induction k as [|a k IH]; [done|]. simpl. by destruct (ascii_dec a a).
Qed.

(** What is stripped at the end of a suggestion never reaches into the
    greeting. *)
Lemma strip_greeting_prefix (rest : string) :
  String.prefix Suggest.greeting (strip (Suggest.greeting +:+ rest)) = true.
Proof.
  destruct (strip_keeps_greeting rest) as [tail ->].
  apply prefix_app_l, prefix_refl.
Qed.

End ReplyText.

(** X25.  Every suggestion starts with the greeting "Thank you for your
    email.", whatever the message and the reference documents are. *)
Theorem suggestion_starts_with_greeting (lib : Library)
    (db : option database) (email_id : string) (reply : string) :
  Suggest.suggest_reply lib db email_id = Ok reply →
  String.prefix Suggest.greeting reply = true.
Proof.
  unfold Suggest.suggest_reply. destruct db as [d|]; [|done].
  destruct (ObjectId lib email_id) as [oid|e]; [|done].
  destruct (Store.find_one_by_id oid (emailmessage d)) as [em|]; [|done].
  intros [= <-]. unfold Suggest.compose. cbv zeta.
  destruct (fst (Suggest.best_of _ _)) as [best|];
    destruct (bool_decide _ && _).
  - rewrite str_app_assoc. apply strip_greeting_prefix.
  - apply strip_greeting_prefix.
  - apply strip_greeting_prefix.
  - pose proof (strip_greeting_prefix "") as H.
    by rewrite str_app_empty_r in H.
Qed.

Lemma suggestion_starts_with_greeting_witness :
  ∃ reply,
    Suggest.suggest_reply Scenario.lib (Some Scenario.db_suggest)
                          "000000000000000000000000" = Ok reply
    ∧ String.prefix Suggest.greeting reply = true.
Proof.
  assert (∃ reply,
            Suggest.suggest_reply Scenario.lib (Some Scenario.db_suggest)
                                  "000000000000000000000000" = Ok reply)
    as [reply Hr] by (eexists; vm_compute; reflexivity).
  exists reply. split; [exact Hr|].
  exact (suggestion_starts_with_greeting Scenario.lib
           (Some Scenario.db_suggest) "000000000000000000000000" reply Hr).
Defined.
